(** * kRad: a Geiger counter as a hardware random number generator

    A shallow embedding of [krad.c], the Linux kernel module that records
    the time of every Geiger pulse in a single-producer/single-consumer
    circular buffer (one page of [struct timespec]) and hands the samples
    to the hwrng core.

    The model is sequential: [spin_lock]/[spin_unlock] pairs and the
    acquire/release qualifiers of the cursor accesses have no effect on a
    single thread of control and are left out; every function is a state
    transformer on [kstate]. *)

From Stdlib Require Import ZArith Lia List.
From stdpp Require Import base numbers list.

Local Open Scope Z_scope.

(** ** C integers (LP64: [int] has 32 bits, [long] and [size_t] 64) *)

Module CInt.

Definition wrap_int (x : Z) : Z := (x + 2 ^ 31) mod 2 ^ 32 - 2 ^ 31.

Definition wrap_u32 (x : Z) : Z := x mod 2 ^ 32.

Definition wrap_size_t (x : Z) : Z := x mod 2 ^ 64.

End CInt.

Import CInt.

(** ** Data *)

(** [struct timespec]: seconds and nanoseconds, both [long]. *)
Record timespec : Type := Timespec { tv_sec : Z; tv_nsec : Z }.

#[global] Instance timespec_inhabited : Inhabited timespec :=
  populate (Timespec 0 0).

(** The lines the module writes to the kernel log. *)
Inductive kmsg : Type :=
  | msg_data_present (size : Z)
  | msg_data_read_called
  | msg_read_called
  | msg_max_too_small
  | msg_dispensed (sec nsec : Z)
  | msg_acquired (sec nsec : Z).

(** The module's globals.  [buffer] is the page seen as an array of
    [BUFFER_SIZE] samples; [klog] is the text printed so far, oldest
    line first. *)
Record kstate : Type := KState {
  buffer : list timespec;
  buffer_head : Z;
  buffer_tail : Z;
  geiger_irq : Z;
  klog : list kmsg
}.

Definition set_buffer (b : list timespec) (s : kstate) : kstate :=
  KState b (buffer_head s) (buffer_tail s) (geiger_irq s) (klog s).

Definition set_buffer_head (h : Z) (s : kstate) : kstate :=
  KState (buffer s) h (buffer_tail s) (geiger_irq s) (klog s).

Definition set_buffer_tail (t : Z) (s : kstate) : kstate :=
  KState (buffer s) (buffer_head s) t (geiger_irq s) (klog s).

Definition printk (m : kmsg) (s : kstate) : kstate :=
  KState (buffer s) (buffer_head s) (buffer_tail s) (geiger_irq s)
         (klog s ++ [m]).

(** [b[i]] and [b[i] = t] on an array of samples.  An index outside the
    array is undefined behaviour in C; here a read yields the default
    sample and a write is dropped.  No state reachable from start-up gets
    there (see [wf_step]). *)
Definition load (b : list timespec) (i : Z) : timespec := b !!! Z.to_nat i.

Definition store (b : list timespec) (i : Z) (t : timespec) : list timespec :=
  <[Z.to_nat i := t]> b.

Definition IRQ_HANDLED : Z := 1.

(** ** The ring buffer and the hwrng callbacks *)

(** [PAGE_SIZE] and [sizeof(struct timespec)] come from the kernel
    headers of the target and are parameters of the model. *)
Class Platform : Type := {
  PAGE_SIZE : Z;
  sizeof_timespec : Z
}.

Section Krad.

Context {target : Platform}.

(** [#define BUFFER_SIZE (PAGE_SIZE / sizeof(struct timespec))] *)
Definition BUFFER_SIZE : Z := PAGE_SIZE / sizeof_timespec.

(** Modelled from the spec: the macro [CIRC_CNT] of [linux/circ_buf.h],
    which is not part of the repository.  The spec gives the occupied-slot
    count as [(head - tail) mod CAPACITY] for a power-of-two [CAPACITY];
    the header computes it with the mask [size - 1], the idiom [krad.c]
    itself uses to advance a cursor.  At every call site [head] and
    [tail] are [int] and [size] is the [unsigned long] [BUFFER_SIZE]. *)
Definition CIRC_CNT (head tail size : Z) : Z :=
  Z.land (wrap_size_t (wrap_int (head - tail))) (wrap_size_t (size - 1)).

(** Modelled from the spec: the macro [CIRC_SPACE] of [linux/circ_buf.h],
    the free-slot count, one slot being kept empty:
    [CIRC_CNT((tail), ((head) + 1), (size))]. *)
Definition CIRC_SPACE (head tail size : Z) : Z :=
  CIRC_CNT tail (wrap_int (head + 1)) size.

(** [(i + 1) & (BUFFER_SIZE - 1)], as stored into an [int] cursor. *)
Definition masked_succ (i : Z) : Z :=
  wrap_int (Z.land (wrap_size_t (wrap_int (i + 1)))
                   (wrap_size_t (BUFFER_SIZE - 1))).

Definition geiger_data_present (wait : Z) (s : kstate) : Z * kstate :=
  let head := buffer_head s in
  let tail := buffer_tail s in
  let size :=
    wrap_int (wrap_size_t (CIRC_CNT head tail BUFFER_SIZE * sizeof_timespec)) in
  let s := printk (msg_data_present size) s in
  (size, s).

(** The old hwrng API.  [data] is the value of [*data] on entry; the
    result is the byte count, [*data] on return and the new state. *)
Definition geiger_data_read (data : Z) (s : kstate) : Z * Z * kstate :=
  let s := printk msg_data_read_called s in
  let head := buffer_head s in
  let tail := buffer_tail s in
  if 1 <=? CIRC_CNT head tail BUFFER_SIZE then
    let data := wrap_u32 (tv_nsec (load (buffer s) tail)) in
    let s := set_buffer_tail (masked_succ tail) s in
    (4, data, s)
  else
    (0, data, s).

(** The body of the [for] loop of [geiger_read], run [n] more times from
    counter [p].  [tail] is the local copy taken before the loop; the
    loop never assigns it.  [p] stays below [pulses_given], so [p++]
    cannot wrap. *)
Fixpoint dispense (n : nat) (p tail : Z) (data : list timespec) (s : kstate)
  : list timespec * kstate :=
  match n with
  | O => (data, s)
  | S n' =>
      let s := printk (msg_dispensed (tv_sec (load (buffer s) tail))
                                     (tv_nsec (load (buffer s) tail))) s in
      let data := store data p (load (buffer s) tail) in
      let s := set_buffer_tail (masked_succ tail) s in
      dispense n' (p + 1) tail data s
  end.

(** The local [pulses_given] of [geiger_read]: the pulses wanted or the
    pulses the buffer has, whichever is less, both as [size_t]. *)
Definition pulses_given (max : Z) (s : kstate) : Z :=
  let head := buffer_head s in
  let tail := buffer_tail s in
  Z.min (wrap_size_t max / sizeof_timespec)
        (wrap_size_t (CIRC_CNT head tail BUFFER_SIZE)).

(** The new hwrng API.  [data] is the caller's buffer seen as an array of
    samples; the result is the byte count, the caller's buffer on return
    and the new state. *)
Definition geiger_read (data : list timespec) (max : Z) (wait : bool)
    (s : kstate) : Z * list timespec * kstate :=
  let s := printk msg_read_called s in
  let tail := buffer_tail s in
  let pulses_given := pulses_given max s in
  let s := if pulses_given =? 0 then printk msg_max_too_small s else s in
  let '(data, s) := dispense (Z.to_nat pulses_given) 0 tail data s in
  (wrap_int (wrap_size_t (pulses_given * sizeof_timespec)), data, s).

(** The interrupt service routine; [now] is [CURRENT_TIME]. *)
Definition geiger_isr (irq : Z) (now : timespec) (s : kstate) : Z * kstate :=
  if irq =? geiger_irq s then
    let t := now in
    let s := printk (msg_acquired (tv_sec t) (tv_nsec t)) s in
    let head := buffer_head s in
    let tail := buffer_tail s in
    let s :=
      if 1 <=? CIRC_SPACE head tail BUFFER_SIZE then
        let s := set_buffer (store (buffer s) head t) s in
        set_buffer_head (masked_succ head) s
      else s in
    (IRQ_HANDLED, s)
  else
    (IRQ_HANDLED, s).

(** ** Abstract view of the buffer *)

(** Occupied-slot count and usable capacity, as the spec defines them. *)
Definition occupancy (s : kstate) : Z :=
  (buffer_head s - buffer_tail s) mod BUFFER_SIZE.

Definition capacity : Z := BUFFER_SIZE - 1.

(** The live samples, oldest first: slots [tail], [tail + 1], ... up to
    but excluding [head], cyclically. *)
Definition contents (s : kstate) : list timespec :=
  map (fun i : nat => load (buffer s) ((buffer_tail s + Z.of_nat i) mod BUFFER_SIZE))
      (seq 0 (Z.to_nat (occupancy s))).

(** What the two sides share: the page and the two cursors. *)
Definition ring (s : kstate) : list timespec * Z * Z :=
  (buffer s, buffer_head s, buffer_tail s).

(** The cursor invariant of the data model. *)
Definition invariant (s : kstate) : Prop :=
  0 <= buffer_head s < BUFFER_SIZE /\
  0 <= buffer_tail s < BUFFER_SIZE /\
  occupancy s <= BUFFER_SIZE - 1.

(** Well-formed states: both cursors index the page, and the page has
    [BUFFER_SIZE] slots. *)
Definition wf (s : kstate) : Prop :=
  0 <= buffer_head s < BUFFER_SIZE /\
  0 <= buffer_tail s < BUFFER_SIZE /\
  Z.of_nat (length (buffer s)) = BUFFER_SIZE.

(** One producer invocation for the module's own interrupt line. *)
Definition push (t : timespec) (s : kstate) : kstate :=
  snd (geiger_isr (geiger_irq s) t s).

Definition pushes (l : list timespec) (s : kstate) : kstate :=
  fold_left (fun s t => push t s) l s.

(** The state after [krad_init]: a fresh page, both cursors zero. *)
Definition init_state (page : list timespec) (irq : Z) : kstate :=
  KState page 0 0 irq [].

(** Calls into the module, in any interleaving. *)
Inductive op : Type :=
  | OpIsr (irq : Z) (now : timespec)
  | OpPresent (wait : Z)
  | OpDataRead (data : Z)
  | OpRead (data : list timespec) (max : Z) (wait : bool).

Definition step (s : kstate) (o : op) : kstate :=
  match o with
  | OpIsr irq now => snd (geiger_isr irq now s)
  | OpPresent wait => snd (geiger_data_present wait s)
  | OpDataRead data => snd (geiger_data_read data s)
  | OpRead data max wait => snd (geiger_read data max wait s)
  end.

Definition run (ops : list op) (s : kstate) : kstate := fold_left step ops s.

End Krad.

(** ** Start-up and shut-down *)

Module Lifecycle.

(** What the kernel answers to each service [krad_init] calls:
    [get_free_page] is the address returned by [__get_free_page] (0 when
    out of memory), the others are the [int] results. *)
Record kernel : Type := Kernel {
  get_free_page : Z;
  gpio_request_one : Z;
  gpio_to_irq : Z;
  request_irq : Z;
  hwrng_register : Z
}.

(** The resources the module holds, the interrupt number it recorded and
    the lines it printed. *)
Record held : Type := Held {
  page : bool;
  gpio : bool;
  irq : bool;
  hwrng : bool;
  irq_number : Z
}.

Inductive lmsg : Type :=
  | msg_no_memory
  | msg_gpio_failed (ret : Z)
  | msg_irq_failed (ret : Z)
  | msg_hwrng_failed (ret : Z)
  | msg_started
  | msg_stopped.

(** Nothing is held before the module is loaded; [geiger_irq] is
    initialised to -1. *)
Definition unloaded : held := Held false false false false (-1).

(** [ENOMEM] of [asm-generic/errno-base.h]. *)
Definition ENOMEM : Z := 12.

Definition set_page (b : bool) (h : held) : held :=
  Held b (gpio h) (irq h) (hwrng h) (irq_number h).

Definition set_gpio (b : bool) (h : held) : held :=
  Held (page h) b (irq h) (hwrng h) (irq_number h).

Definition set_irq (b : bool) (h : held) : held :=
  Held (page h) (gpio h) b (hwrng h) (irq_number h).

Definition set_hwrng (b : bool) (h : held) : held :=
  Held (page h) (gpio h) (irq h) b (irq_number h).

Definition set_irq_number (n : Z) (h : held) : held :=
  Held (page h) (gpio h) (irq h) (hwrng h) n.

(** The three exit labels of [krad_init]; each falls through to the next. *)
Definition fail1 (ret : Z) (h : held) : Z * held := (ret, h).

Definition fail2 (ret : Z) (h : held) : Z * held :=
  fail1 ret (set_gpio false h).

Definition fail3 (ret : Z) (h : held) : Z * held :=
  fail2 ret (set_irq false h).

(** [krad_init]: result, resources held on return and lines printed. *)
Definition krad_init (k : kernel) (h : held) : Z * held * list lmsg :=
  if get_free_page k =? 0 then
    (ENOMEM, h, [msg_no_memory])
  else
    let h := set_page true h in
    let ret := gpio_request_one k in
    if negb (ret =? 0) then
      (fail1 ret h, [msg_gpio_failed ret])
    else
      let h := set_gpio true h in
      let ret := gpio_to_irq k in
      if ret <? 0 then
        (fail2 ret h, [msg_irq_failed ret])
      else
        let h := set_irq_number ret h in
        let ret := request_irq k in
        if negb (ret =? 0) then
          (fail2 ret h, [msg_irq_failed ret])
        else
          let h := set_irq true h in
          let ret := hwrng_register k in
          if negb (ret =? 0) then
            (fail3 ret h, [msg_hwrng_failed ret])
          else
            let h := set_hwrng true h in
            (0, h, [msg_started]).

(** [krad_exit] undoes the four acquisitions, the page last. *)
Definition krad_exit (h : held) : held * list lmsg :=
  let h := set_hwrng false h in
  let h := set_irq false h in
  let h := set_gpio false h in
  let h := set_page false h in
  (h, [msg_stopped]).

(** Start-up fails when it returns a non-zero result. *)
Definition failed (r : Z * held * list lmsg) : bool :=
  negb (fst (fst r) =? 0).

(** Everything acquired has been given back. *)
Definition all_released (h : held) : bool :=
  negb (page h) && negb (gpio h) && negb (irq h) && negb (hwrng h).

End Lifecycle.

(** ** Concrete targets and scenarios *)

(** x86-64 Linux: 4 KiB pages and a 16-byte [struct timespec], hence 256
    slots. *)
Definition linux_x86_64 : Platform :=
  {| PAGE_SIZE := 4096; sizeof_timespec := 16 |}.

(** A four-slot ring, the size of the spec's end-to-end scenario. *)
Definition tiny : Platform := {| PAGE_SIZE := 64; sizeof_timespec := 16 |}.

Definition sample_A : timespec := Timespec 100 111.
Definition sample_B : timespec := Timespec 200 222.
Definition sample_C : timespec := Timespec 300 333.
Definition sample_D : timespec := Timespec 400 444.

(** A page as [__get_free_page] may return it: [n] slots of old data. *)
Definition stale_page (n : nat) : list timespec := repeat (Timespec (-1) (-1)) n.

(** Interrupt line 42 is the one [gpio_to_irq] gave the module. *)
Definition fresh (target : Platform) : kstate :=
  init_state (stale_page (Z.to_nat (@BUFFER_SIZE target))) 42.

(** Three pulses recorded on a freshly started module. *)
Definition three_pulses (target : Platform) : kstate :=
  @pushes target [sample_A; sample_B; sample_C] (fresh target).

(** The caller's buffer before a read: room for four samples. *)
Definition caller_buffer : list timespec := repeat (Timespec 0 0) 4.

(** [n] pulses, one second apart. *)
Definition burst (n : nat) : list timespec :=
  map (fun i : nat => Timespec (Z.of_nat i) 0) (seq 0 n).

(** ** Callers and the queue the ring implements *)

Section Callers.

Context {target : Platform}.

(** [n] successive calls of the old API, [*data] being 0 before each
    call; the words of the calls that returned 4 bytes, in call order. *)
Fixpoint data_reads (n : nat) (s : kstate) : list Z * kstate :=
  match n with
  | O => ([], s)
  | S n' =>
      let '(bytes, word, s1) := geiger_data_read 0 s in
      let '(words, s2) := data_reads n' s1 in
      ((if bytes =? 4 then [word] else []) ++ words, s2)
  end.

(** [n] successive calls of the new API, each with [max] bytes of room
    in a fresh buffer of [room] zeroed samples; the samples each call
    reports (as many as its byte count covers), in call order. *)
Fixpoint reads (room : nat) (max : Z) (n : nat) (s : kstate)
  : list timespec * kstate :=
  match n with
  | O => ([], s)
  | S n' =>
      let '(bytes, data, s1) :=
        geiger_read (repeat (Timespec 0 0) room) max false s in
      let '(out, s2) := reads room max n' s1 in
      (firstn (Z.to_nat (bytes / sizeof_timespec)) data ++ out, s2)
  end.

(** The bounded queue of samples the ring stands for, and what each
    call does to it as the code behaves: the interrupt handler of line
    [irq0] appends while fewer than [capacity] samples wait, the old API
    removes the oldest, and the new API removes the oldest whenever it
    hands out anything at all. *)
Definition queue_step (irq0 : Z) (q : list timespec) (o : op) : list timespec :=
  match o with
  | OpIsr irq now =>
      if (irq =? irq0) && (Z.of_nat (length q) <? capacity)
      then q ++ [now] else q
  | OpPresent _ => q
  | OpDataRead _ => tl q
  | OpRead _ max _ =>
      if 1 <=? Z.min (wrap_size_t max / sizeof_timespec) (Z.of_nat (length q))
      then tl q else q
  end.

Definition queue_run (irq0 : Z) (ops : list op) (q : list timespec)
  : list timespec :=
  fold_left (queue_step irq0) ops q.

(** The 32-bit word the old API hands out for a sample. *)
Definition nsec_word (t : timespec) : Z := wrap_u32 (tv_nsec t).

End Callers.

(** ** The earlier revision with a hand-written ring of 50 pulses *)

Module Pulses.

(** The globals of that revision: the array [pulses], its two cursors
    (samples are pushed at [pulses_tail] and popped at [pulses_head]), the
    interrupt number and the lines printed. *)
Record pstate : Type := PState {
  pulses : list timespec;
  pulses_head : Z;
  pulses_tail : Z;
  geiger_irq : Z;
  plog : list kmsg
}.

Definition PULSE_BUFFER_SIZE : Z := 50.

Definition set_pulses (b : list timespec) (s : pstate) : pstate :=
  PState b (pulses_head s) (pulses_tail s) (geiger_irq s) (plog s).

Definition set_pulses_head (h : Z) (s : pstate) : pstate :=
  PState (pulses s) h (pulses_tail s) (geiger_irq s) (plog s).

Definition set_pulses_tail (t : Z) (s : pstate) : pstate :=
  PState (pulses s) (pulses_head s) t (geiger_irq s) (plog s).

Definition printk (m : kmsg) (s : pstate) : pstate :=
  PState (pulses s) (pulses_head s) (pulses_tail s) (geiger_irq s)
         (plog s ++ [m]).

Section Revision.

Context {target : Platform}.

Definition pulses_size (s : pstate) : Z :=
  if pulses_head s =? pulses_tail s then 0
  else if pulses_head s <? pulses_tail s then
    wrap_int (wrap_int (pulses_tail s - pulses_head s) + 1)
  else
    wrap_int (wrap_int (wrap_int (PULSE_BUFFER_SIZE - pulses_head s)
                        + pulses_tail s) + 1).

(** Pops an element from the head (front) of the buffer.  [%] on [int]
    truncates towards zero: [Z.rem]. *)
Definition pulses_pop (s : pstate) : timespec * pstate :=
  let head := pulses_head s in
  let s := set_pulses_head (wrap_int (pulses_head s + 1)) s in
  let s := set_pulses_head (Z.rem (pulses_head s) PULSE_BUFFER_SIZE) s in
  (load (pulses s) head, s).

(** Pushes an element onto the tail (back) of the buffer. *)
Definition pulses_push (t : timespec) (s : pstate) : pstate :=
  let s := set_pulses_tail (wrap_int (pulses_tail s + 1)) s in
  let s := set_pulses_tail (Z.rem (pulses_tail s) PULSE_BUFFER_SIZE) s in
  set_pulses (store (pulses s) (pulses_tail s) t) s.

Definition geiger_data_present (wait : Z) (s : pstate) : Z * pstate :=
  let bytes :=
    wrap_int (wrap_size_t (wrap_size_t (pulses_size s) * sizeof_timespec)) in
  (bytes, s).

Definition geiger_data_read (data : Z) (s : pstate) : Z * Z * pstate :=
  if 0 <? pulses_size s then
    let '(t, s) := pulses_pop s in
    (4, wrap_u32 (tv_nsec t), s)
  else (0, data, s).

(** The [while] loop of [geiger_read]: [n] is [max_pulses], [p] the
    offset of [output] in the caller's buffer. *)
Fixpoint pop_loop (n : nat) (p : Z) (data : list timespec) (s : pstate)
  : list timespec * pstate :=
  match n with
  | O => (data, s)
  | S n' =>
      let '(t, s) := pulses_pop s in
      let data := store data p t in
      pop_loop n' (p + 1) data s
  end.

Definition geiger_read (data : list timespec) (max : Z) (wait : bool)
    (s : pstate) : Z * list timespec * pstate :=
  if 0 <? pulses_size s then
    if sizeof_timespec <? wrap_size_t max then
      let bytes_available :=
        wrap_int (wrap_size_t (wrap_size_t (pulses_size s) * sizeof_timespec)) in
      let max_bytes := Z.min (wrap_int (wrap_size_t max)) bytes_available in
      let max_pulses := wrap_int (wrap_size_t max_bytes / sizeof_timespec) in
      let '(data, s) := pop_loop (Z.to_nat max_pulses) 0 data s in
      (max_bytes, data, s)
    else
      (0, data, printk msg_max_too_small s)
  else (0, data, s).

Definition geiger_isr (irq : Z) (now : timespec) (s : pstate) : Z * pstate :=
  if irq =? geiger_irq s then
    let s :=
      if pulses_size s <? PULSE_BUFFER_SIZE then pulses_push now s else s in
    (IRQ_HANDLED, s)
  else (IRQ_HANDLED, s).

(** Both cursors index the array, and the array has its 50 slots. *)
Definition in_range (s : pstate) : Prop :=
  0 <= pulses_head s < PULSE_BUFFER_SIZE /\
  0 <= pulses_tail s < PULSE_BUFFER_SIZE /\
  Z.of_nat (length (pulses s)) = PULSE_BUFFER_SIZE.

(** Calls into that revision, in any interleaving. *)
Inductive pop : Type :=
  | PIsr (irq : Z) (now : timespec)
  | PPresent (wait : Z)
  | PDataRead (data : Z)
  | PRead (data : list timespec) (max : Z) (wait : bool).

Definition pstep (s : pstate) (o : pop) : pstate :=
  match o with
  | PIsr irq now => snd (geiger_isr irq now s)
  | PPresent wait => snd (geiger_data_present wait s)
  | PDataRead data => snd (geiger_data_read data s)
  | PRead data max wait => snd (geiger_read data max wait s)
  end.

Definition prun (ops : list pop) (s : pstate) : pstate := fold_left pstep ops s.

End Revision.

(** The statically initialised globals: a zeroed array, both cursors 0
    and [geiger_irq] -1 until [krad_init] records the line (here [irq]). *)
Definition loaded (irq : Z) : pstate :=
  PState (repeat (Timespec 0 0) 50) 0 0 irq [].

End Pulses.

(** Two pulses recorded by that revision on interrupt line 42. *)
Definition two_pulses_50 : Pulses.pstate :=
  snd (Pulses.geiger_isr 42 sample_B
         (snd (Pulses.geiger_isr 42 sample_A (Pulses.loaded 42)))).

(** The targets the results below cover: a non-empty sample type, a page
    whose byte counts fit an [int], and a power-of-two number of slots. *)
Definition supported (target : Platform) : Prop :=
  0 < sizeof_timespec /\
  PAGE_SIZE < 2 ^ 31 /\
  BUFFER_SIZE = 2 ^ Z.log2 BUFFER_SIZE.

(** * Results *)

(** ** Integer conversions *)

Lemma wrap_int_small (x : Z) : - 2 ^ 31 <= x < 2 ^ 31 -> wrap_int x = x.
Proof.
  intros Hx. unfold wrap_int.
  rewrite Z.mod_small; lia.
Qed.

Lemma wrap_size_t_small (x : Z) : 0 <= x < 2 ^ 64 -> wrap_size_t x = x.
Proof. intros Hx. unfold wrap_size_t. now apply Z.mod_small. Qed.

Lemma wrap_size_t_nonneg (x : Z) : 0 <= wrap_size_t x.
Proof. unfold wrap_size_t. apply Z.mod_pos_bound. lia. Qed.

Lemma wrap_size_t_le (x : Z) : 0 <= x -> wrap_size_t x <= x.
Proof. intros Hx. unfold wrap_size_t. apply Z.mod_le; lia. Qed.

Lemma pow2_divide (k n : Z) : 0 <= k <= n -> (2 ^ k | 2 ^ n).
Proof.
  intros Hk. exists (2 ^ (n - k)).
  rewrite <- Z.pow_add_r by lia. f_equal. lia.
Qed.

(** An [int] keeps the residue modulo any power of two up to [2 ^ 32]. *)
Lemma wrap_int_mod (x k : Z) :
  0 <= k <= 32 -> wrap_int x mod 2 ^ k = x mod 2 ^ k.
Proof.
  intros Hk. unfold wrap_int.
  rewrite <- Zminus_mod_idemp_l.
  rewrite Z.mod_mod_divide by (apply pow2_divide; lia).
  rewrite Zminus_mod_idemp_l.
  f_equal. lia.
Qed.

(** So does its conversion to [size_t]. *)
Lemma wrap_size_t_int_mod (x k : Z) :
  0 <= k <= 32 -> wrap_size_t (wrap_int x) mod 2 ^ k = x mod 2 ^ k.
Proof.
  intros Hk. unfold wrap_size_t.
  rewrite Z.mod_mod_divide by (apply pow2_divide; lia).
  now apply wrap_int_mod.
Qed.

(** ** Cursor arithmetic *)

Section Arithmetic.

Context {target : Platform}.
Hypothesis Hok : supported target.

Lemma BUFFER_SIZE_pos : 1 <= BUFFER_SIZE.
Proof.
  destruct Hok as (_ & _ & Hp). rewrite Hp.
  pose proof (Z.log2_nonneg BUFFER_SIZE).
  pose proof (Z.pow_pos_nonneg 2 (Z.log2 BUFFER_SIZE)). lia.
Qed.

Lemma page_holds_BUFFER_SIZE : BUFFER_SIZE * sizeof_timespec <= PAGE_SIZE.
Proof.
  destruct Hok as (Hs & _ & _). unfold BUFFER_SIZE.
  rewrite Z.mul_comm. apply Z.mul_div_le. exact Hs.
Qed.

Lemma BUFFER_SIZE_int : BUFFER_SIZE < 2 ^ 31.
Proof.
  pose proof BUFFER_SIZE_pos. pose proof page_holds_BUFFER_SIZE.
  destruct Hok as (Hs & Hpg & _). nia.
Qed.

Lemma log2_BUFFER_SIZE : 0 <= Z.log2 BUFFER_SIZE <= 32.
Proof.
  split; [apply Z.log2_nonneg |].
  pose proof BUFFER_SIZE_int as Hlt. pose proof BUFFER_SIZE_pos as Hpos.
  assert (Z.log2 BUFFER_SIZE < 31); [| lia].
  apply Z.log2_lt_pow2; lia.
Qed.

(** Masking with [BUFFER_SIZE - 1] is reduction modulo [BUFFER_SIZE]. *)
Lemma mask_mod (x : Z) :
  Z.land (wrap_size_t (wrap_int x)) (wrap_size_t (BUFFER_SIZE - 1))
  = x mod BUFFER_SIZE.
Proof.
  pose proof BUFFER_SIZE_pos. pose proof BUFFER_SIZE_int.
  pose proof log2_BUFFER_SIZE as Hk.
  rewrite (wrap_size_t_small (BUFFER_SIZE - 1)) by lia.
  destruct Hok as (_ & _ & Hp).
  replace (BUFFER_SIZE - 1) with (Z.ones (Z.log2 BUFFER_SIZE))
    by (rewrite Z.ones_equiv; lia).
  rewrite Z.land_ones by lia.
  rewrite wrap_size_t_int_mod by lia.
  now rewrite <- Hp.
Qed.

Lemma CIRC_CNT_mod (head tail : Z) :
  CIRC_CNT head tail BUFFER_SIZE = (head - tail) mod BUFFER_SIZE.
Proof. unfold CIRC_CNT. apply mask_mod. Qed.

Lemma CIRC_SPACE_mod (head tail : Z) :
  CIRC_SPACE head tail BUFFER_SIZE = (tail - (head + 1)) mod BUFFER_SIZE.
Proof.
  unfold CIRC_SPACE. rewrite CIRC_CNT_mod.
  pose proof log2_BUFFER_SIZE as Hk.
  destruct Hok as (_ & _ & Hp). rewrite Hp.
  rewrite <- Zminus_mod_idemp_r.
  rewrite wrap_int_mod by exact Hk.
  now rewrite Zminus_mod_idemp_r.
Qed.

Lemma masked_succ_mod (i : Z) : masked_succ i = (i + 1) mod BUFFER_SIZE.
Proof.
  unfold masked_succ. rewrite mask_mod.
  pose proof BUFFER_SIZE_pos. pose proof BUFFER_SIZE_int.
  pose proof (Z.mod_pos_bound (i + 1) BUFFER_SIZE).
  apply wrap_int_small. lia.
Qed.

Lemma CIRC_CNT_bounds (head tail : Z) :
  0 <= CIRC_CNT head tail BUFFER_SIZE <= BUFFER_SIZE - 1.
Proof.
  rewrite CIRC_CNT_mod. pose proof BUFFER_SIZE_pos.
  pose proof (Z.mod_pos_bound (head - tail) BUFFER_SIZE). lia.
Qed.

(** A byte count of at most a page survives the trip through [size_t]
    and [int]. *)
Lemma bytes_fit (n : Z) :
  0 <= n <= BUFFER_SIZE - 1 ->
  wrap_int (wrap_size_t (n * sizeof_timespec)) = n * sizeof_timespec.
Proof.
  intros Hn. pose proof page_holds_BUFFER_SIZE.
  destruct Hok as (Hs & Hpg & _).
  assert (0 <= n * sizeof_timespec < 2 ^ 31) by nia.
  rewrite wrap_size_t_small by lia.
  apply wrap_int_small. lia.
Qed.

End Arithmetic.

(** ** The callbacks in terms of occupancy *)

Section Callbacks.

Context {target : Platform}.
Hypothesis Hok : supported target.

Lemma occupancy_bounds (s : kstate) : 0 <= occupancy s <= capacity.
Proof.
  unfold occupancy, capacity. pose proof (BUFFER_SIZE_pos Hok).
  pose proof (Z.mod_pos_bound (buffer_head s - buffer_tail s) BUFFER_SIZE). lia.
Qed.

(** Free slots and occupied slots add up to the usable capacity. *)
Lemma space_plus_count (head tail : Z) :
  (tail - (head + 1)) mod BUFFER_SIZE + (head - tail) mod BUFFER_SIZE
  = BUFFER_SIZE - 1.
Proof.
  pose proof (BUFFER_SIZE_pos Hok) as Hb.
  set (B := BUFFER_SIZE) in *. clearbody B.
  pose proof (Z.div_mod (head - tail) B) as Hdm.
  pose proof (Z.mod_pos_bound (head - tail) B) as Hr.
  assert (Hsp : B - 1 - (head - tail) mod B = (tail - (head + 1)) mod B).
  { apply (Z.mod_unique_pos _ _ (- ((head - tail) / B) - 1)); lia. }
  lia.
Qed.

Lemma geiger_data_present_eq (wait : Z) (s : kstate) :
  geiger_data_present wait s
  = (occupancy s * sizeof_timespec,
     printk (msg_data_present (occupancy s * sizeof_timespec)) s).
Proof.
  unfold geiger_data_present.
  rewrite (CIRC_CNT_mod Hok). fold (occupancy s).
  rewrite (bytes_fit Hok) by (apply occupancy_bounds).
  reflexivity.
Qed.

Lemma geiger_data_read_eq (data : Z) (s : kstate) :
  geiger_data_read data s
  = if 1 <=? occupancy s then
      (4, wrap_u32 (tv_nsec (load (buffer s) (buffer_tail s))),
       set_buffer_tail ((buffer_tail s + 1) mod BUFFER_SIZE)
                       (printk msg_data_read_called s))
    else (0, data, printk msg_data_read_called s).
Proof.
  unfold geiger_data_read. cbn [printk buffer_head buffer_tail buffer].
  rewrite (CIRC_CNT_mod Hok), (masked_succ_mod Hok). reflexivity.
Qed.

Lemma geiger_isr_eq (irq : Z) (now : timespec) (s : kstate) :
  geiger_isr irq now s
  = if irq =? geiger_irq s then
      (IRQ_HANDLED,
       if occupancy s <? capacity then
         set_buffer_head ((buffer_head s + 1) mod BUFFER_SIZE)
           (set_buffer (store (buffer s) (buffer_head s) now)
              (printk (msg_acquired (tv_sec now) (tv_nsec now)) s))
       else printk (msg_acquired (tv_sec now) (tv_nsec now)) s)
    else (IRQ_HANDLED, s).
Proof.
  unfold geiger_isr. cbn [printk buffer_head buffer_tail buffer].
  rewrite (CIRC_SPACE_mod Hok), (masked_succ_mod Hok).
  pose proof (space_plus_count (buffer_head s) (buffer_tail s)) as Hsum.
  fold (occupancy s) in Hsum. unfold capacity.
  destruct (irq =? geiger_irq s); [| reflexivity].
  destruct (Z.leb_spec 1 ((buffer_tail s - (buffer_head s + 1)) mod BUFFER_SIZE));
    destruct (Z.ltb_spec (occupancy s) (BUFFER_SIZE - 1));
    try lia; reflexivity.
Qed.

(** The loop touches neither the page, nor [buffer_head], nor the
    interrupt number. *)
Lemma dispense_frame (n : nat) (p tail : Z) (data : list timespec) (s : kstate) :
  buffer (snd (dispense n p tail data s)) = buffer s /\
  buffer_head (snd (dispense n p tail data s)) = buffer_head s /\
  geiger_irq (snd (dispense n p tail data s)) = geiger_irq s.
Proof.
  revert p data s. induction n as [| n IH]; intros p data s; cbn [dispense].
  - auto.
  - destruct (IH (p + 1) (store data p (load (buffer (printk
      (msg_dispensed (tv_sec (load (buffer s) tail)) (tv_nsec (load (buffer s) tail))) s)) tail))
      (set_buffer_tail (masked_succ tail) (printk
      (msg_dispensed (tv_sec (load (buffer s) tail)) (tv_nsec (load (buffer s) tail))) s)))
      as (Hb & Hh & Hi).
    rewrite Hb, Hh, Hi. auto.
Qed.

(** Every iteration publishes the same successor of the local [tail]. *)
Lemma dispense_tail (n : nat) (p tail : Z) (data : list timespec) (s : kstate) :
  buffer_tail (snd (dispense n p tail data s))
  = match n with O => buffer_tail s | S _ => masked_succ tail end.
Proof.
  revert p data s. induction n as [| n IH]; intros p data s; cbn [dispense].
  - reflexivity.
  - rewrite IH. destruct n; reflexivity.
Qed.

Lemma dispense_length (n : nat) (p tail : Z) (data : list timespec) (s : kstate) :
  length (fst (dispense n p tail data s)) = length data.
Proof.
  revert p data s. induction n as [| n IH]; intros p data s; cbn [dispense].
  - reflexivity.
  - rewrite IH. unfold store. apply length_insert.
Qed.

(** Slots of the caller's buffer outside [p, p + n) keep their value. *)
Lemma dispense_outside (n : nat) (p tail : Z) (data : list timespec)
    (s : kstate) (i : nat) :
  0 <= p ->
  Z.of_nat i < p \/ p + Z.of_nat n <= Z.of_nat i ->
  fst (dispense n p tail data s) !! i = data !! i.
Proof.
  revert p data s. induction n as [| n IH]; intros p data s Hp Hi; cbn [dispense].
  - reflexivity.
  - rewrite IH by lia. unfold store.
    apply list_lookup_insert_ne. lia.
Qed.

(** Slots inside [p, p + n) all receive the sample at the local [tail]. *)
Lemma dispense_inside (n : nat) (p tail : Z) (data : list timespec)
    (s : kstate) (i : nat) :
  0 <= p ->
  p <= Z.of_nat i < p + Z.of_nat n ->
  (i < length data)%nat ->
  fst (dispense n p tail data s) !! i = Some (load (buffer s) tail).
Proof.
  revert p data s. induction n as [| n IH]; intros p data s Hp Hi Hlen;
    cbn [dispense]; [lia |].
  destruct (Z.eq_dec (Z.of_nat i) p) as [Heq | Hne].
  - rewrite dispense_outside by lia. unfold store. cbn [printk buffer].
    replace (Z.to_nat p) with i by lia.
    now apply list_lookup_insert_eq.
  - rewrite IH; [reflexivity | lia | lia |].
    unfold store. now rewrite length_insert.
Qed.

End Callbacks.

(** ** Queue view: what a push and a pop do to the live samples *)

Section Queue.

Context {target : Platform}.
Hypothesis Hok : supported target.

Lemma geiger_read_eq (data : list timespec) (max : Z) (wait : bool) (s : kstate) :
  0 <= max < 2 ^ 64 ->
  geiger_read data max wait s
  = let n := Z.min (max / sizeof_timespec) (occupancy s) in
    let s1 := printk msg_read_called s in
    let s2 := if n =? 0 then printk msg_max_too_small s1 else s1 in
    (n * sizeof_timespec,
     fst (dispense (Z.to_nat n) 0 (buffer_tail s) data s2),
     snd (dispense (Z.to_nat n) 0 (buffer_tail s) data s2)).
Proof.
  intros Hmax. unfold geiger_read, pulses_given.
  cbn [printk buffer_head buffer_tail buffer].
  pose proof (occupancy_bounds Hok s) as Hocc.
  pose proof (BUFFER_SIZE_int Hok) as Hint.
  destruct Hok as (Hs & _ & _).
  rewrite (CIRC_CNT_mod Hok). fold (occupancy s).
  rewrite (wrap_size_t_small max) by exact Hmax.
  rewrite (wrap_size_t_small (occupancy s)) by (unfold capacity in Hocc; lia).
  assert (0 <= max / sizeof_timespec) by (apply Z.div_pos; lia).
  rewrite (bytes_fit Hok) by (unfold capacity in Hocc; lia).
  cbv zeta.
  destruct (dispense _ _ _ _ _) as [d s']. reflexivity.
Qed.

Lemma wf_printk (m : kmsg) (s : kstate) : wf s -> wf (printk m s).
Proof. intros Hwf. exact Hwf. Qed.

Lemma occupancy_printk (m : kmsg) (s : kstate) :
  occupancy (printk m s) = occupancy s.
Proof. reflexivity. Qed.

Lemma contents_printk (m : kmsg) (s : kstate) :
  contents (printk m s) = contents s.
Proof. reflexivity. Qed.

Lemma length_contents (s : kstate) :
  Z.of_nat (length (contents s)) = occupancy s.
Proof.
  unfold contents. rewrite length_map, length_seq.
  pose proof (occupancy_bounds Hok s). lia.
Qed.

(** Advancing [head] over a freshly written slot appends the sample. *)
Lemma occupancy_advance_head (s : kstate) (b : list timespec) :
  occupancy s < capacity ->
  occupancy (set_buffer_head ((buffer_head s + 1) mod BUFFER_SIZE) (set_buffer b s))
  = occupancy s + 1.
Proof.
  intros Hfree. unfold occupancy in *. cbn [set_buffer_head set_buffer buffer_head buffer_tail].
  pose proof (BUFFER_SIZE_pos Hok) as Hb. unfold capacity in Hfree.
  pose proof (Z.mod_pos_bound (buffer_head s - buffer_tail s) BUFFER_SIZE).
  rewrite Zminus_mod_idemp_l.
  replace (buffer_head s + 1 - buffer_tail s)
    with (buffer_head s - buffer_tail s + 1) by lia.
  rewrite <- Zplus_mod_idemp_l.
  apply Z.mod_small. lia.
Qed.

Lemma occupancy_advance_tail (s : kstate) :
  1 <= occupancy s ->
  occupancy (set_buffer_tail ((buffer_tail s + 1) mod BUFFER_SIZE) s)
  = occupancy s - 1.
Proof.
  intros Hne. unfold occupancy in *. cbn [set_buffer_tail buffer_head buffer_tail].
  pose proof (BUFFER_SIZE_pos Hok) as Hb.
  pose proof (Z.mod_pos_bound (buffer_head s - buffer_tail s) BUFFER_SIZE).
  rewrite Zminus_mod_idemp_r.
  replace (buffer_head s - (buffer_tail s + 1))
    with (buffer_head s - buffer_tail s - 1) by lia.
  rewrite <- Zminus_mod_idemp_l.
  apply Z.mod_small. lia.
Qed.

(** The slot at [head] is not live: no live index reaches it. *)
Lemma live_slot_not_head (s : kstate) (i : Z) :
  wf s -> 0 <= i < occupancy s ->
  (buffer_tail s + i) mod BUFFER_SIZE <> buffer_head s.
Proof.
  intros (Hh & Ht & _) Hi Heq. unfold occupancy in Hi.
  assert (Hi' : (buffer_head s - buffer_tail s) mod BUFFER_SIZE = i).
  { rewrite <- Heq. rewrite Zminus_mod_idemp_l.
    replace (buffer_tail s + i - buffer_tail s) with i by lia.
    pose proof (Z.mod_pos_bound (buffer_head s - buffer_tail s) BUFFER_SIZE).
    apply Z.mod_small. lia. }
  lia.
Qed.

Lemma first_free_slot_is_head (s : kstate) :
  wf s -> (buffer_tail s + occupancy s) mod BUFFER_SIZE = buffer_head s.
Proof.
  intros (Hh & Ht & _). unfold occupancy.
  rewrite Zplus_mod_idemp_r.
  replace (buffer_tail s + (buffer_head s - buffer_tail s)) with (buffer_head s) by lia.
  apply Z.mod_small. lia.
Qed.

Lemma contents_append (s : kstate) (t : timespec) :
  wf s -> occupancy s < capacity ->
  contents (set_buffer_head ((buffer_head s + 1) mod BUFFER_SIZE)
              (set_buffer (store (buffer s) (buffer_head s) t) s))
  = contents s ++ [t].
Proof.
  intros Hwf Hfree. unfold contents at 1.
  rewrite (occupancy_advance_head s _ Hfree).
  pose proof (occupancy_bounds Hok s) as Hocc.
  replace (Z.to_nat (occupancy s + 1)) with (S (Z.to_nat (occupancy s))) by lia.
  rewrite seq_S, map_app. cbn [set_buffer_head set_buffer buffer buffer_tail map].
  f_equal.
  - unfold contents. apply map_ext_in. intros i Hi.
    apply in_seq in Hi. unfold load, store.
    apply list_lookup_total_insert_ne.
    pose proof (live_slot_not_head s (Z.of_nat i) Hwf) as Hne.
    pose proof (BUFFER_SIZE_pos Hok).
    pose proof (Z.mod_pos_bound (buffer_tail s + Z.of_nat i) BUFFER_SIZE).
    destruct Hwf as (Hh & _ & _). lia.
  - f_equal. rewrite Nat.add_0_l, Z2Nat.id by lia.
    rewrite (first_free_slot_is_head s Hwf). unfold load, store.
    apply list_lookup_total_insert_eq.
    destruct Hwf as (Hh & _ & Hlen). lia.
Qed.

Lemma contents_behead (s : kstate) :
  wf s -> 1 <= occupancy s ->
  contents s
  = load (buffer s) (buffer_tail s)
    :: contents (set_buffer_tail ((buffer_tail s + 1) mod BUFFER_SIZE) s).
Proof.
  intros (_ & Ht & _) Hne. unfold contents at 2.
  rewrite (occupancy_advance_tail s Hne). unfold contents.
  replace (Z.to_nat (occupancy s)) with (S (Z.to_nat (occupancy s - 1))) by lia.
  cbn [seq map set_buffer_tail buffer buffer_tail]. f_equal.
  - f_equal. rewrite Z.add_0_r. apply Z.mod_small. lia.
  - rewrite <- seq_shift, map_map. apply map_ext. intros i.
    f_equal. rewrite Zplus_mod_idemp_l. f_equal. lia.
Qed.

(** A producer invocation appends to a buffer with room and is a no-op
    on the ring when the buffer is full. *)
Lemma push_eq (t : timespec) (s : kstate) :
  push t s
  = if occupancy s <? capacity then
      set_buffer_head ((buffer_head s + 1) mod BUFFER_SIZE)
        (set_buffer (store (buffer s) (buffer_head s) t)
           (printk (msg_acquired (tv_sec t) (tv_nsec t)) s))
    else printk (msg_acquired (tv_sec t) (tv_nsec t)) s.
Proof.
  unfold push. rewrite (geiger_isr_eq Hok). now rewrite Z.eqb_refl.
Qed.

Lemma wf_push (t : timespec) (s : kstate) : wf s -> wf (push t s).
Proof.
  intros Hwf. rewrite push_eq.
  destruct (occupancy s <? capacity); [| exact Hwf].
  destruct Hwf as (Hh & Ht & Hlen). pose proof (BUFFER_SIZE_pos Hok).
  unfold wf. cbn [set_buffer_head set_buffer printk buffer buffer_head buffer_tail].
  unfold store. rewrite length_insert.
  pose proof (Z.mod_pos_bound (buffer_head s + 1) BUFFER_SIZE). lia.
Qed.

Lemma contents_push (t : timespec) (s : kstate) :
  wf s ->
  contents (push t s)
  = if occupancy s <? capacity then contents s ++ [t] else contents s.
Proof.
  intros Hwf. rewrite push_eq.
  destruct (Z.ltb_spec (occupancy s) capacity) as [Hfree | Hfull]; [| reflexivity].
  apply (contents_append (printk _ s) t); assumption.
Qed.

Lemma wf_pushes (l : list timespec) (s : kstate) : wf s -> wf (pushes l s).
Proof.
  revert s. induction l as [| t l IH]; intros s Hwf; cbn; [exact Hwf |].
  apply IH. now apply wf_push.
Qed.

(** While there is room, a run of pushes appends the whole run. *)
Lemma contents_pushes (l : list timespec) (s : kstate) :
  wf s -> occupancy s + Z.of_nat (length l) <= capacity ->
  contents (pushes l s) = contents s ++ l.
Proof.
  revert s. induction l as [| t l IH]; intros s Hwf Hroom; cbn [pushes fold_left].
  - now rewrite app_nil_r.
  - cbn [length] in Hroom. fold (pushes l (push t s)).
    pose proof (contents_push t s Hwf) as Hc.
    destruct (Z.ltb_spec (occupancy s) capacity) as [Hfree | Hfull]; [| lia].
    rewrite IH.
    + rewrite Hc. now rewrite <- app_assoc.
    + now apply wf_push.
    + pose proof (length_contents (push t s)) as Hl.
      rewrite Hc, length_app, Nat2Z.inj_add, length_contents in Hl.
      cbn [length] in Hl. lia.
Qed.

End Queue.

(** ** The reader *)

Section Reader.

Context {target : Platform}.

Lemma pulses_given_eq (max : Z) (s : kstate) :
  supported target -> 0 <= max < 2 ^ 64 ->
  pulses_given max s = Z.min (max / sizeof_timespec) (occupancy s).
Proof.
  intros Hok Hmax. unfold pulses_given.
  pose proof (occupancy_bounds Hok s) as Hocc. unfold capacity in Hocc.
  pose proof (BUFFER_SIZE_int Hok).
  rewrite (CIRC_CNT_mod Hok). fold (occupancy s).
  rewrite (wrap_size_t_small max) by exact Hmax.
  rewrite (wrap_size_t_small (occupancy s)) by lia.
  reflexivity.
Qed.

Lemma pulses_given_printk (max : Z) (m : kmsg) (s : kstate) :
  pulses_given max (printk m s) = pulses_given max s.
Proof. reflexivity. Qed.

(** What [geiger_read] leaves behind, whatever [max] is: the page and
    [buffer_head] as they were, and [buffer_tail] advanced once if the
    loop ran at all. *)
Lemma geiger_read_state (data : list timespec) (max : Z) (wait : bool)
    (s : kstate) :
  buffer (snd (geiger_read data max wait s)) = buffer s /\
  buffer_head (snd (geiger_read data max wait s)) = buffer_head s /\
  geiger_irq (snd (geiger_read data max wait s)) = geiger_irq s /\
  buffer_tail (snd (geiger_read data max wait s))
  = match Z.to_nat (pulses_given max s) with
    | O => buffer_tail s
    | S _ => masked_succ (buffer_tail s)
    end.
Proof.
  unfold geiger_read. rewrite pulses_given_printk.
  cbn [printk buffer_tail].
  set (n := pulses_given max s).
  set (s2 := if n =? 0 then _ else _).
  pose proof (dispense_frame (Z.to_nat n) 0 (buffer_tail s) data s2) as (Hb & Hh & Hi).
  pose proof (dispense_tail (Z.to_nat n) 0 (buffer_tail s) data s2) as Ht.
  destruct (dispense (Z.to_nat n) 0 (buffer_tail s) data s2) as [d s'].
  cbn [fst snd] in *.
  rewrite Hb, Hh, Hi, Ht. subst s2.
  destruct (n =? 0); cbn; auto.
Qed.

Lemma geiger_read_data (data : list timespec) (max : Z) (wait : bool)
    (s : kstate) :
  snd (fst (geiger_read data max wait s))
  = fst (dispense (Z.to_nat (pulses_given max s)) 0 (buffer_tail s) data
           (if pulses_given max s =? 0
            then printk msg_max_too_small (printk msg_read_called s)
            else printk msg_read_called s)).
Proof.
  unfold geiger_read. rewrite pulses_given_printk. cbn [printk buffer_tail].
  destruct (dispense _ _ _ _ _) as [d s']. reflexivity.
Qed.

(** C6: [geiger_data_present] returns exactly the occupancy times the
    sample size, leaves the page and both cursors as they were, and its
    result is the same for every value of the [wait] argument. *)
Theorem geiger_data_present_spec (s : kstate) (wait wait' : Z) :
  supported target ->
  fst (geiger_data_present wait s) = occupancy s * sizeof_timespec /\
  ring (snd (geiger_data_present wait s)) = ring s /\
  fst (geiger_data_present wait' s) = fst (geiger_data_present wait s).
Proof.
  intros Hok. rewrite !(geiger_data_present_eq Hok). cbn [fst snd].
  repeat split.
Qed.

(** C5: a [geiger_read] asking for less than one sample returns 0,
    leaves the caller's buffer, the page, both cursors and hence the
    occupancy as they were, and logs the request-too-small line. *)
Theorem geiger_read_too_small (data : list timespec) (max : Z) (wait : bool)
    (s : kstate) :
  0 <= max < sizeof_timespec ->
  fst (fst (geiger_read data max wait s)) = 0 /\
  snd (fst (geiger_read data max wait s)) = data /\
  ring (snd (geiger_read data max wait s)) = ring s /\
  occupancy (snd (geiger_read data max wait s)) = occupancy s /\
  klog (snd (geiger_read data max wait s))
  = klog s ++ [msg_read_called; msg_max_too_small].
Proof.
  intros Hmax.
  assert (Hn : pulses_given max s = 0).
  { unfold pulses_given.
    assert (Hw : wrap_size_t max / sizeof_timespec = 0).
    { apply Z.div_small. pose proof (wrap_size_t_nonneg max).
      pose proof (wrap_size_t_le max). lia. }
    rewrite Hw.
    pose proof (wrap_size_t_nonneg
      (CIRC_CNT (buffer_head s) (buffer_tail s) BUFFER_SIZE)). lia. }
  unfold geiger_read. rewrite pulses_given_printk, Hn.
  change (Z.to_nat 0) with 0%nat. cbn [dispense fst snd].
  change (wrap_int (wrap_size_t (0 * sizeof_timespec))) with 0.
  change (0 =? 0) with true. cbn [klog printk].
  rewrite <- app_assoc. repeat split.
Qed.

(** C10: the loop of [geiger_read] writes [pulses_given] slots of the
    caller's buffer, at most [max / sizeof(struct timespec)] of them:
    every slot from that index on keeps its value, the buffer keeps its
    length, and the byte count returned is at most [max]. *)
Theorem geiger_read_within_max (data : list timespec) (max : Z) (wait : bool)
    (s : kstate) :
  supported target -> 0 <= max < 2 ^ 64 ->
  0 <= pulses_given max s <= max / sizeof_timespec /\
  (forall i : nat, pulses_given max s <= Z.of_nat i ->
     snd (fst (geiger_read data max wait s)) !! i = data !! i) /\
  (forall i : nat, max / sizeof_timespec <= Z.of_nat i ->
     snd (fst (geiger_read data max wait s)) !! i = data !! i) /\
  length (snd (fst (geiger_read data max wait s))) = length data /\
  0 <= fst (fst (geiger_read data max wait s)) <= max.
Proof.
  intros Hok Hmax.
  pose proof (occupancy_bounds Hok s) as Hocc.
  assert (Hs : 0 < sizeof_timespec) by (destruct Hok; assumption).
  assert (Hwant : 0 <= max / sizeof_timespec) by (apply Z.div_pos; lia).
  assert (Hn : 0 <= pulses_given max s <= max / sizeof_timespec).
  { rewrite (pulses_given_eq _ _ Hok Hmax). lia. }
  assert (Hout : forall i : nat, pulses_given max s <= Z.of_nat i ->
            snd (fst (geiger_read data max wait s)) !! i = data !! i).
  { intros i Hi. rewrite geiger_read_data.
    apply dispense_outside; lia. }
  split; [exact Hn |]. split; [exact Hout |].
  split; [intros i Hi; apply Hout; lia |].
  split; [rewrite geiger_read_data; apply dispense_length |].
  rewrite (geiger_read_eq Hok) by exact Hmax. cbn [fst].
  pose proof (Z.mul_div_le max sizeof_timespec Hs).
  rewrite (pulses_given_eq _ _ Hok Hmax) in Hn. nia.
Qed.

End Reader.

(** ** Pops, pushes and the invariant *)

Section Ring.

Context {target : Platform}.

(** What a successful [geiger_read] does on a well-formed state: it
    returns [pulses_given] samples' worth of bytes, fills that many slots
    of the caller's buffer with the sample at [tail], and advances
    [buffer_tail] by one slot. *)
Lemma geiger_read_dispenses (data : list timespec) (max : Z) (wait : bool)
    (s : kstate) :
  supported target -> 0 <= max < 2 ^ 64 ->
  1 <= pulses_given max s ->
  fst (fst (geiger_read data max wait s)) = pulses_given max s * sizeof_timespec /\
  (forall i : nat, Z.of_nat i < pulses_given max s -> (i < length data)%nat ->
     snd (fst (geiger_read data max wait s)) !! i
     = Some (load (buffer s) (buffer_tail s))) /\
  buffer_tail (snd (geiger_read data max wait s))
  = (buffer_tail s + 1) mod BUFFER_SIZE /\
  occupancy (snd (geiger_read data max wait s)) = occupancy s - 1.
Proof.
  intros Hok Hmax Hn.
  pose proof (geiger_read_state data max wait s) as (Hb & Hh & _ & Ht).
  destruct (Z.to_nat (pulses_given max s)) as [| k] eqn:Hk; [lia |].
  rewrite (masked_succ_mod Hok) in Ht.
  split.
  { rewrite (geiger_read_eq Hok) by exact Hmax. cbn [fst].
    now rewrite <- (pulses_given_eq _ _ Hok Hmax). }
  split.
  { intros i Hi Hlen. rewrite geiger_read_data.
    rewrite dispense_inside; [| lia | lia | exact Hlen].
    destruct (pulses_given max s =? 0); reflexivity. }
  split; [exact Ht |].
  rewrite <- (occupancy_advance_tail Hok s).
  - unfold occupancy. rewrite Hh, Ht. reflexivity.
  - rewrite (pulses_given_eq _ _ Hok Hmax) in Hn. lia.
Qed.

(** C7: on a non-empty buffer [geiger_data_read] returns 4, hands out
    the nanosecond field of the oldest sample truncated to 32 bits, and
    removes exactly that sample: [buffer_tail] moves one slot, the
    occupancy drops by one and the live samples lose their first element.
    The sample is the one [geiger_read] would copy out first.  On an empty
    buffer it returns 0 and changes neither [*data] nor the ring. *)
Theorem geiger_data_read_spec (data : Z) (s : kstate) :
  supported target -> wf s ->
  (1 <= occupancy s ->
     fst (fst (geiger_data_read data s)) = 4 /\
     snd (fst (geiger_data_read data s))
     = wrap_u32 (tv_nsec (load (buffer s) (buffer_tail s))) /\
     contents s
     = load (buffer s) (buffer_tail s) :: contents (snd (geiger_data_read data s)) /\
     buffer_tail (snd (geiger_data_read data s))
     = (buffer_tail s + 1) mod BUFFER_SIZE /\
     occupancy (snd (geiger_data_read data s)) = occupancy s - 1 /\
     buffer (snd (geiger_data_read data s)) = buffer s /\
     buffer_head (snd (geiger_data_read data s)) = buffer_head s /\
     (forall (out : list timespec) (max : Z) (wait : bool),
        sizeof_timespec <= max < 2 ^ 64 -> out <> [] ->
        snd (fst (geiger_read out max wait s)) !! 0%nat
        = Some (load (buffer s) (buffer_tail s)))) /\
  (occupancy s = 0 ->
     fst (fst (geiger_data_read data s)) = 0 /\
     snd (fst (geiger_data_read data s)) = data /\
     ring (snd (geiger_data_read data s)) = ring s).
Proof.
  intros Hok Hwf. rewrite (geiger_data_read_eq Hok). split.
  - intros Hne.
    destruct (Z.leb_spec 1 (occupancy s)) as [_ | Hlt]; [| lia].
    cbn [fst snd].
    pose proof (contents_behead Hok (printk msg_data_read_called s)
                  (wf_printk _ s Hwf) Hne) as Hc.
    pose proof (occupancy_advance_tail Hok (printk msg_data_read_called s) Hne) as Ho.
    repeat split; try assumption.
    intros out max wait Hmax Hout.
    assert (Hs : 0 < sizeof_timespec) by (destruct Hok; assumption).
    assert (Hm : 0 <= max < 2 ^ 64) by lia.
    assert (Hw : 1 <= max / sizeof_timespec).
    { apply Z.div_le_lower_bound; lia. }
    apply geiger_read_dispenses; try assumption.
    + rewrite (pulses_given_eq _ _ Hok Hm). lia.
    + rewrite (pulses_given_eq _ _ Hok Hm). lia.
    + destruct out; [congruence | cbn; lia].
  - intros Hempty. rewrite Hempty. cbn. repeat split.
Qed.

(** C3: on a full buffer the interrupt handler writes no slot and leaves
    the page and both cursors as they were; hence [capacity + 1] pushes
    into an empty buffer store exactly the first [capacity] samples, in
    order, and drop the last one. *)
Theorem full_buffer_drops_newest :
  supported target ->
  (forall (s : kstate) (irq : Z) (now : timespec),
     occupancy s = capacity ->
     ring (snd (geiger_isr irq now s)) = ring s) /\
  (forall (s : kstate) (l : list timespec) (x : timespec),
     wf s -> occupancy s = 0 -> Z.of_nat (length l) = capacity ->
     contents (pushes (l ++ [x]) s) = l /\
     occupancy (pushes (l ++ [x]) s) = capacity /\
     ring (pushes (l ++ [x]) s) = ring (pushes l s)).
Proof.
  intros Hok.
  assert (Hfull : forall (s : kstate) (irq : Z) (now : timespec),
            occupancy s = capacity ->
            ring (snd (geiger_isr irq now s)) = ring s).
  { intros s irq now Hocc. rewrite (geiger_isr_eq Hok).
    destruct (irq =? geiger_irq s); [| reflexivity].
    cbn [snd]. rewrite Hocc, Z.ltb_irrefl. reflexivity. }
  split; [exact Hfull |].
  intros s l x Hwf Hempty Hlen.
  assert (Hnil : contents s = []).
  { unfold contents. now rewrite Hempty. }
  assert (Hl : contents (pushes l s) = l).
  { rewrite (contents_pushes Hok) by (assumption || lia).
    now rewrite Hnil. }
  assert (Hocc : occupancy (pushes l s) = capacity).
  { rewrite <- (length_contents Hok), Hl. exact Hlen. }
  unfold pushes at 1 2 3. rewrite fold_left_app. cbn [fold_left].
  fold (pushes l s).
  assert (Hring : ring (push x (pushes l s)) = ring (pushes l s)).
  { unfold push. now apply Hfull. }
  repeat split.
  - rewrite (contents_push Hok) by (now apply wf_pushes).
    rewrite Hocc, Z.ltb_irrefl. exact Hl.
  - unfold occupancy in *. unfold ring in Hring.
    injection Hring as _ Hh Ht. now rewrite Hh, Ht.
  - exact Hring.
Qed.

Lemma invariant_of_cursors (s : kstate) :
  supported target ->
  0 <= buffer_head s < BUFFER_SIZE -> 0 <= buffer_tail s < BUFFER_SIZE ->
  invariant s.
Proof.
  intros Hok Hh Ht. pose proof (occupancy_bounds Hok s). unfold capacity in *.
  unfold invariant. lia.
Qed.

(** Every call keeps both cursors inside the page. *)
Lemma invariant_step (s : kstate) (o : op) :
  supported target -> invariant s -> invariant (step s o).
Proof.
  intros Hok (Hh & Ht & _). pose proof (BUFFER_SIZE_pos Hok) as Hb.
  apply invariant_of_cursors; [exact Hok | |]; destruct o as [irq now | wait | data | data max wait];
    cbn [step].
  - rewrite (geiger_isr_eq Hok).
    destruct (irq =? geiger_irq s); [| exact Hh]. cbn [snd].
    destruct (occupancy s <? capacity); [| exact Hh].
    cbn. apply Z.mod_pos_bound. lia.
  - exact Hh.
  - rewrite (geiger_data_read_eq Hok).
    destruct (1 <=? occupancy s); exact Hh.
  - pose proof (geiger_read_state data max wait s) as (_ & Hh' & _). now rewrite Hh'.
  - rewrite (geiger_isr_eq Hok).
    destruct (irq =? geiger_irq s); [| exact Ht]. cbn [snd].
    destruct (occupancy s <? capacity); exact Ht.
  - exact Ht.
  - rewrite (geiger_data_read_eq Hok).
    destruct (1 <=? occupancy s); [| exact Ht].
    cbn. apply Z.mod_pos_bound. lia.
  - pose proof (geiger_read_state data max wait s) as (_ & _ & _ & Ht').
    rewrite Ht'. destruct (Z.to_nat (pulses_given max s)); [exact Ht |].
    rewrite (masked_succ_mod Hok). apply Z.mod_pos_bound. lia.
Qed.

Lemma invariant_run (ops : list op) (s : kstate) :
  supported target -> invariant s -> invariant (run ops s).
Proof.
  intros Hok. revert s. induction ops as [| o ops IH]; intros s Hinv; cbn.
  - exact Hinv.
  - apply IH. now apply invariant_step.
Qed.

(** No call changes the number of slots of the page. *)
Lemma length_buffer_step (s : kstate) (o : op) :
  length (buffer (step s o)) = length (buffer s).
Proof.
  destruct o as [irq now | wait | data | data max wait]; cbn [step].
  - unfold geiger_isr. destruct (irq =? geiger_irq s); [| reflexivity].
    cbn [snd printk buffer buffer_head buffer_tail].
    destruct (1 <=? _); [| reflexivity].
    cbn. unfold store. apply length_insert.
  - reflexivity.
  - unfold geiger_data_read. destruct (1 <=? _); reflexivity.
  - pose proof (geiger_read_state data max wait s) as (Hb & _). now rewrite Hb.
Qed.

Lemma wf_step (s : kstate) (o : op) :
  supported target -> wf s -> wf (step s o).
Proof.
  intros Hok (Hh & Ht & Hlen).
  destruct (invariant_step s o Hok) as (Hh' & Ht' & _).
  { now apply invariant_of_cursors. }
  unfold wf. rewrite length_buffer_step. auto.
Qed.

(** C4: starting from zeroed cursors, after every operation of every
    interleaving of producer and reader calls, [buffer_head] and
    [buffer_tail] lie in [0, BUFFER_SIZE) and the occupancy
    [(head - tail) mod BUFFER_SIZE] is at most [BUFFER_SIZE - 1]. *)
Theorem cursors_stay_in_range (page : list timespec) (irq : Z)
    (ops : list op) (n : nat) :
  supported target ->
  invariant (run (take n ops) (init_state page irq)).
Proof.
  intros Hok. apply invariant_run; [exact Hok |].
  pose proof (BUFFER_SIZE_pos Hok).
  apply invariant_of_cursors; [exact Hok | |]; cbn; lia.
Qed.

End Ring.

(** ** Start-up failures *)

(** Whichever of the four later steps fails, the GPIO line and the
    interrupt are given back and the page is still held on return. *)
Lemma krad_init_failure_keeps_page (k : Lifecycle.kernel) :
  Lifecycle.get_free_page k <> 0 ->
  Lifecycle.failed (Lifecycle.krad_init k Lifecycle.unloaded) = true ->
  Lifecycle.page (snd (fst (Lifecycle.krad_init k Lifecycle.unloaded))) = true /\
  Lifecycle.gpio (snd (fst (Lifecycle.krad_init k Lifecycle.unloaded))) = false /\
  Lifecycle.irq (snd (fst (Lifecycle.krad_init k Lifecycle.unloaded))) = false /\
  Lifecycle.hwrng (snd (fst (Lifecycle.krad_init k Lifecycle.unloaded))) = false.
Proof.
  intros Hpage. unfold Lifecycle.failed, Lifecycle.krad_init.
  destruct (Z.eqb_spec (Lifecycle.get_free_page k) 0) as [| _]; [contradiction |].
  destruct (Lifecycle.gpio_request_one k =? 0); cbn [negb];
    [| intros _; cbn; auto].
  destruct (Lifecycle.gpio_to_irq k <? 0); [intros _; cbn; auto |].
  destruct (Lifecycle.request_irq k =? 0); cbn [negb];
    [| intros _; cbn; auto].
  destruct (Lifecycle.hwrng_register k =? 0); cbn [negb];
    [| intros _; cbn; auto].
  cbn. discriminate.
Qed.

(** Shut-down, by contrast, gives everything back, the page included. *)
Lemma krad_exit_releases_all (h : Lifecycle.held) :
  Lifecycle.all_released (fst (Lifecycle.krad_exit h)) = true.
Proof. reflexivity. Qed.

(** C8, as the code behaves: with the page allocated and
    [gpio_request_one] answering [-EBUSY], [krad_init] returns the error
    while the page is still held. *)
Example krad_init_gpio_failure_leaks_page :
  Lifecycle.krad_init (Lifecycle.Kernel 4096 (-16) 0 0 0) Lifecycle.unloaded
  = (-16, Lifecycle.Held true false false false (-1),
     [Lifecycle.msg_gpio_failed (-16)]) /\
  Lifecycle.all_released
    (snd (fst (Lifecycle.krad_init (Lifecycle.Kernel 4096 (-16) 0 0 0)
                 Lifecycle.unloaded))) = false.
Proof. split; reflexivity. Qed.

(** ** Scenarios on concrete targets *)

(** C1, as the code behaves: with samples A, B, C recorded, a read
    sized for two samples fills both slots of the caller's buffer with A;
    B is not handed out. *)
Example geiger_read_two_samples_repeats_oldest :
  contents (target := linux_x86_64) (three_pulses linux_x86_64)
  = [sample_A; sample_B; sample_C] /\
  fst (geiger_read (target := linux_x86_64) caller_buffer 32 false
         (three_pulses linux_x86_64))
  = (32, [sample_A; sample_A; Timespec 0 0; Timespec 0 0]).
Proof. split; vm_compute; reflexivity. Qed.

(** C2, as the code behaves: with three samples recorded, a read sized
    for two returns 32 bytes and lowers the occupancy from 3 to 2. *)
Example geiger_read_two_samples_advances_once :
  occupancy (target := linux_x86_64) (three_pulses linux_x86_64) = 3 /\
  fst (fst (geiger_read (target := linux_x86_64) caller_buffer 32 false
              (three_pulses linux_x86_64))) = 2 * 16 /\
  occupancy (target := linux_x86_64)
    (snd (geiger_read (target := linux_x86_64) caller_buffer 32 false
            (three_pulses linux_x86_64))) = 2.
Proof. repeat split; vm_compute; reflexivity. Qed.

(** The spec's end-to-end scenario up to the first read, on four slots:
    A, B, C are stored, D is dropped, and 48 bytes are reported. *)
Example scenario_push_and_present :
  ring (push (target := tiny) sample_D (three_pulses tiny))
  = ring (three_pulses tiny) /\
  contents (target := tiny) (three_pulses tiny)
  = [sample_A; sample_B; sample_C] /\
  fst (geiger_data_present (target := tiny) 0 (three_pulses tiny)) = 3 * 16.
Proof. repeat split; vm_compute; reflexivity. Qed.

(** ** The theorems at concrete inputs *)

Lemma geiger_data_present_spec_witness :
  supported linux_x86_64 /\
  fst (geiger_data_present (target := linux_x86_64) 1 (three_pulses linux_x86_64)) = 48 /\
  ring (snd (geiger_data_present (target := linux_x86_64) 1 (three_pulses linux_x86_64)))
  = ring (three_pulses linux_x86_64) /\
  fst (geiger_data_present (target := linux_x86_64) 0 (three_pulses linux_x86_64))
  = fst (geiger_data_present (target := linux_x86_64) 1 (three_pulses linux_x86_64)).
Proof.
  assert (Hok : supported linux_x86_64) by (vm_compute; repeat split).
  split; [exact Hok |].
  exact (geiger_data_present_spec (target := linux_x86_64) (three_pulses linux_x86_64) 1 0 Hok).
Defined.

Lemma geiger_read_too_small_witness :
  0 <= 15 < @sizeof_timespec linux_x86_64 /\
  fst (fst (geiger_read (target := linux_x86_64) caller_buffer 15 false (three_pulses linux_x86_64))) = 0 /\
  snd (fst (geiger_read (target := linux_x86_64) caller_buffer 15 false (three_pulses linux_x86_64)))
  = caller_buffer /\
  ring (snd (geiger_read (target := linux_x86_64) caller_buffer 15 false (three_pulses linux_x86_64)))
  = ring (three_pulses linux_x86_64) /\
  occupancy (target := linux_x86_64)
    (snd (geiger_read (target := linux_x86_64) caller_buffer 15 false (three_pulses linux_x86_64)))
  = occupancy (target := linux_x86_64) (three_pulses linux_x86_64) /\
  klog (snd (geiger_read (target := linux_x86_64) caller_buffer 15 false (three_pulses linux_x86_64)))
  = klog (three_pulses linux_x86_64) ++ [msg_read_called; msg_max_too_small].
Proof.
  assert (Hmax : 0 <= 15 < @sizeof_timespec linux_x86_64) by (cbn; lia).
  split; [exact Hmax |].
  exact (geiger_read_too_small (target := linux_x86_64) caller_buffer 15 false
           (three_pulses linux_x86_64) Hmax).
Defined.

Lemma geiger_read_within_max_witness :
  supported linux_x86_64 /\ 0 <= 40 < 2 ^ 64 /\
  0 <= pulses_given (target := linux_x86_64) 40 (three_pulses linux_x86_64) <= 2 /\
  (forall i : nat, 2 <= Z.of_nat i ->
     snd (fst (geiger_read (target := linux_x86_64) caller_buffer 40 false
                 (three_pulses linux_x86_64))) !! i = caller_buffer !! i) /\
  0 <= fst (fst (geiger_read (target := linux_x86_64) caller_buffer 40 false
                   (three_pulses linux_x86_64))) <= 40.
Proof.
  assert (Hok : supported linux_x86_64) by (vm_compute; repeat split).
  assert (Hmax : 0 <= 40 < 2 ^ 64) by lia.
  destruct (geiger_read_within_max (target := linux_x86_64) caller_buffer 40 false
              (three_pulses linux_x86_64) Hok Hmax) as (Hn & _ & Hout & _ & Hret).
  repeat split; try lia.
  - exact (proj2 Hn).
  - exact Hout.
Defined.

Lemma geiger_data_read_spec_witness :
  supported linux_x86_64 /\ wf (target := linux_x86_64) (three_pulses linux_x86_64) /\
  fst (geiger_data_read (target := linux_x86_64) 7 (three_pulses linux_x86_64)) = (4, 111) /\
  contents (target := linux_x86_64) (three_pulses linux_x86_64)
  = sample_A :: contents (target := linux_x86_64)
                  (snd (geiger_data_read (target := linux_x86_64) 7 (three_pulses linux_x86_64))) /\
  occupancy (target := linux_x86_64)
    (snd (geiger_data_read (target := linux_x86_64) 7 (three_pulses linux_x86_64))) = 2.
Proof.
  assert (Hok : supported linux_x86_64) by (vm_compute; repeat split).
  assert (Hwf : wf (target := linux_x86_64) (three_pulses linux_x86_64)).
  { unfold wf. vm_compute. repeat split; discriminate. }
  destruct (geiger_data_read_spec (target := linux_x86_64) 7 (three_pulses linux_x86_64) Hok Hwf)
    as [Hne _].
  assert (Hocc : 1 <= occupancy (target := linux_x86_64) (three_pulses linux_x86_64))
    by (vm_compute; discriminate).
  destruct (Hne Hocc) as (Hret & Hdata & Hcont & _ & Hdec & _).
  split; [exact Hok |]. split; [exact Hwf |].
  split; [| split; [exact Hcont | exact Hdec]].
  destruct (geiger_data_read (target := linux_x86_64) 7 (three_pulses linux_x86_64)) as [[n d] s'].
  cbn [fst snd] in *. now rewrite Hret, Hdata.
Defined.

Lemma full_buffer_drops_newest_witness :
  supported linux_x86_64 /\
  ring (snd (geiger_isr (target := linux_x86_64) 42 sample_D
              (pushes (target := linux_x86_64) (burst 255) (fresh linux_x86_64))))
  = ring (pushes (target := linux_x86_64) (burst 255) (fresh linux_x86_64)) /\
  contents (target := linux_x86_64)
    (pushes (target := linux_x86_64) (burst 255 ++ [sample_D])
       (fresh linux_x86_64))
  = burst 255.
Proof.
  assert (Hok : supported linux_x86_64) by (vm_compute; repeat split).
  destruct (full_buffer_drops_newest (target := linux_x86_64) Hok) as [Hfull Hdrop].
  split; [exact Hok |]. split.
  - apply Hfull. vm_compute. reflexivity.
  - apply Hdrop.
    + unfold wf. vm_compute. repeat split; discriminate.
    + vm_compute. reflexivity.
    + vm_compute. reflexivity.
Defined.

Lemma cursors_stay_in_range_witness :
  supported linux_x86_64 /\
  invariant (target := linux_x86_64)
    (run (target := linux_x86_64)
       (take 4 [OpIsr 42 sample_A; OpIsr 42 sample_B;
                OpRead caller_buffer 32 false; OpDataRead 0; OpPresent 0])
       (init_state (stale_page 256) 42)).
Proof.
  assert (Hok : supported linux_x86_64) by (vm_compute; repeat split).
  split; [exact Hok |].
  exact (cursors_stay_in_range (target := linux_x86_64) (stale_page 256) 42
           [OpIsr 42 sample_A; OpIsr 42 sample_B;
            OpRead caller_buffer 32 false; OpDataRead 0; OpPresent 0] 4 Hok).
Defined.

(** * Further properties of the callbacks *)

Section Ownership.

Context {target : Platform}.

(** The live samples and the occupancy are functions of the page and the
    two cursors alone. *)
Lemma contents_ring (s1 s2 : kstate) :
  ring s1 = ring s2 -> contents s1 = contents s2 /\ occupancy s1 = occupancy s2.
Proof.
  unfold ring. intros Heq. injection Heq as Hb Hh Ht.
  unfold contents, occupancy. now rewrite Hb, Hh, Ht.
Qed.

Lemma geiger_irq_step (s : kstate) (o : op) :
  geiger_irq (step s o) = geiger_irq s.
Proof.
  destruct o as [irq now | wait | data | data max wait]; cbn [step].
  - unfold geiger_isr. destruct (irq =? geiger_irq s); [| reflexivity].
    cbn [snd printk buffer buffer_head buffer_tail].
    destruct (1 <=? _); reflexivity.
  - reflexivity.
  - unfold geiger_data_read. destruct (1 <=? _); reflexivity.
  - now pose proof (geiger_read_state data max wait s) as (_ & _ & Hi & _).
Qed.

(** Each cursor has one writer: the interrupt handler never moves
    [buffer_tail], the three hwrng callbacks never move [buffer_head] and
    never write a slot of the page, and no call changes the recorded
    interrupt number. *)
Theorem single_writer (s : kstate) (o : op) :
  geiger_irq (step s o) = geiger_irq s /\
  match o with
  | OpIsr _ _ => buffer_tail (step s o) = buffer_tail s
  | _ => buffer_head (step s o) = buffer_head s /\ buffer (step s o) = buffer s
  end.
Proof.
  split; [apply geiger_irq_step |].
  destruct o as [irq now | wait | data | data max wait]; cbn [step].
  - unfold geiger_isr. destruct (irq =? geiger_irq s); [| reflexivity].
    cbn [snd printk buffer buffer_head buffer_tail].
    destruct (1 <=? _); reflexivity.
  - split; reflexivity.
  - unfold geiger_data_read. destruct (1 <=? _); split; reflexivity.
  - pose proof (geiger_read_state data max wait s) as (Hb & Hh & _). auto.
Qed.

End Ownership.

Section Refinement.

Context {target : Platform}.
Hypothesis Hok : supported target.

Lemma pulses_given_occupancy (max : Z) (s : kstate) :
  pulses_given max s = Z.min (wrap_size_t max / sizeof_timespec) (occupancy s).
Proof.
  unfold pulses_given.
  pose proof (occupancy_bounds Hok s) as Hocc. unfold capacity in Hocc.
  pose proof (BUFFER_SIZE_int Hok).
  rewrite (CIRC_CNT_mod Hok). fold (occupancy s).
  rewrite (wrap_size_t_small (occupancy s)) by lia.
  reflexivity.
Qed.

Lemma contents_empty (s : kstate) : occupancy s = 0 -> contents s = [].
Proof. intros H0. unfold contents. now rewrite H0. Qed.

(** What the old API does to the live samples. *)
Lemma contents_data_read (data : Z) (s : kstate) :
  wf s ->
  contents (snd (geiger_data_read data s)) = tl (contents s).
Proof.
  intros Hwf. rewrite (geiger_data_read_eq Hok).
  destruct (Z.leb_spec 1 (occupancy s)) as [Hne | Hlt]; cbn [snd].
  - pose proof (contents_behead Hok (printk msg_data_read_called s)
                  (wf_printk _ s Hwf) Hne) as Hc.
    rewrite contents_printk in Hc. rewrite Hc. reflexivity.
  - pose proof (occupancy_bounds Hok s).
    rewrite contents_printk, contents_empty by lia. reflexivity.
Qed.

(** What the new API does to the live samples. *)
Lemma contents_read (data : list timespec) (max : Z) (wait : bool) (s : kstate) :
  wf s ->
  contents (snd (geiger_read data max wait s))
  = if 1 <=? pulses_given max s then tl (contents s) else contents s.
Proof.
  intros Hwf.
  pose proof (geiger_read_state data max wait s) as (Hb & Hh & _ & Ht).
  destruct (Z.leb_spec 1 (pulses_given max s)) as [Hn | Hn].
  - destruct (Z.to_nat (pulses_given max s)) as [| k] eqn:Hk; [lia |].
    rewrite (masked_succ_mod Hok) in Ht.
    assert (Hne : 1 <= occupancy s).
    { rewrite pulses_given_occupancy in Hn. lia. }
    rewrite (contents_behead Hok s Hwf Hne). cbn [tl].
    apply contents_ring. unfold ring. cbn [set_buffer_tail buffer buffer_head buffer_tail].
    now rewrite Hb, Hh, Ht.
  - replace (Z.to_nat (pulses_given max s)) with 0%nat in Ht by lia.
    apply contents_ring. unfold ring. now rewrite Hb, Hh, Ht.
Qed.

Lemma contents_step (s : kstate) (o : op) :
  wf s ->
  contents (step s o) = queue_step (geiger_irq s) (contents s) o.
Proof.
  intros Hwf. pose proof (length_contents Hok s) as Hlen.
  destruct o as [irq now | wait | data | data max wait]; cbn [step queue_step].
  - rewrite Hlen. destruct (Z.eqb_spec irq (geiger_irq s)) as [-> | Hne].
    + fold (push now s). rewrite (contents_push Hok) by exact Hwf.
      reflexivity.
    + unfold geiger_isr. destruct (Z.eqb_spec irq (geiger_irq s)); [contradiction |].
      reflexivity.
  - reflexivity.
  - now apply contents_data_read.
  - rewrite contents_read by exact Hwf.
    now rewrite pulses_given_occupancy, Hlen.
Qed.


(** The ring implements a bounded queue: along every interleaving of
    calls, the live samples are what [queue_run] computes from the live
    samples at the start. *)
Theorem ring_refines_queue (ops : list op) (s : kstate) :
  wf s ->
  contents (run ops s) = queue_run (geiger_irq s) ops (contents s).
Proof.
  revert s. induction ops as [| o ops IH]; intros s Hwf; cbn.
  - reflexivity.
  - fold (run ops (step s o)).
    fold (queue_run (geiger_irq s) ops (queue_step (geiger_irq s) (contents s) o)).
    rewrite IH by (now apply wf_step).
    now rewrite geiger_irq_step, contents_step.
Qed.


End Refinement.

Section Draining.

Context {target : Platform}.
Hypothesis Hok : supported target.

Lemma wf_data_read (data : Z) (s : kstate) :
  wf s -> wf (snd (geiger_data_read data s)).
Proof. intros Hwf. exact (wf_step s (OpDataRead data) Hok Hwf). Qed.

Lemma wf_read (data : list timespec) (max : Z) (wait : bool) (s : kstate) :
  wf s -> wf (snd (geiger_read data max wait s)).
Proof. intros Hwf. exact (wf_step s (OpRead data max wait) Hok Hwf). Qed.

(** The first live sample is the one at [buffer_tail]. *)
Lemma contents_head (s : kstate) :
  wf s -> 1 <= occupancy s ->
  contents s = load (buffer s) (buffer_tail s) :: tl (contents s).
Proof.
  intros Hwf Hne. now rewrite (contents_behead Hok s Hwf Hne) at 1 2.
Qed.

Lemma data_reads_take_drop (n : nat) (s : kstate) :
  wf s ->
  fst (data_reads n s) = map nsec_word (firstn n (contents s)) /\
  contents (snd (data_reads n s)) = skipn n (contents s).
Proof.
  revert s. induction n as [| n IH]; intros s Hwf.
  - split; reflexivity.
  - cbn [data_reads].
    pose proof (contents_data_read Hok 0 s Hwf) as Hc.
    pose proof (wf_data_read 0 s Hwf) as Hwf1.
    pose proof (geiger_data_read_eq Hok 0 s) as Heq.
    destruct (geiger_data_read 0 s) as [[bytes word] s1]. cbn [snd] in Hc, Hwf1.
    destruct (IH s1 Hwf1) as [Hout Hrest].
    destruct (data_reads n s1) as [words s2]. cbn [fst snd] in *.
    destruct (Z.leb_spec 1 (occupancy s)) as [Hne | Hlt].
    + injection Heq as -> -> _.
      rewrite (contents_head s Hwf Hne). cbn [firstn skipn map app Z.eqb Pos.eqb].
      rewrite Hout, Hrest, Hc. split; reflexivity.
    + injection Heq as -> -> _.
      pose proof (occupancy_bounds Hok s).
      rewrite (contents_empty s) in * by lia. cbn [tl] in Hc.
      rewrite Hc in Hout, Hrest. rewrite Hout, Hrest.
      destruct n; split; reflexivity.
Qed.

(** Draining through the old API is first in, first out: [n] calls
    hand out the nanosecond words of the [n] oldest live samples, oldest
    first (fewer if the buffer runs empty), and leave the others queued. *)
Theorem data_reads_fifo (n : nat) (s : kstate) :
  wf s ->
  fst (data_reads n s) = map nsec_word (firstn n (contents s)) /\
  contents (snd (data_reads n s)) = skipn n (contents s).
Proof. exact (data_reads_take_drop n s). Qed.

(** The round trip through the old API: samples pushed into an empty
    buffer, no more than it holds, come back as their nanosecond words in
    the order pushed, and the buffer is empty again. *)
Theorem push_data_read_round_trip (l : list timespec) (s : kstate) :
  wf s -> occupancy s = 0 -> Z.of_nat (length l) <= capacity ->
  fst (data_reads (length l) (pushes l s)) = map nsec_word l /\
  occupancy (snd (data_reads (length l) (pushes l s))) = 0.
Proof.
  intros Hwf Hempty Hlen.
  assert (Hc : contents (pushes l s) = l).
  { rewrite (contents_pushes Hok) by (assumption || lia).
    now rewrite (contents_empty s Hempty). }
  destruct (data_reads_take_drop (length l) (pushes l s) (wf_pushes Hok l s Hwf))
    as [Hout Hrest].
  rewrite Hc in Hout, Hrest. rewrite firstn_all in Hout. rewrite skipn_all in Hrest.
  split; [exact Hout |].
  rewrite <- (length_contents Hok), Hrest. reflexivity.
Qed.

Lemma geiger_read_bytes (data : list timespec) (max : Z) (wait : bool) (s : kstate) :
  fst (fst (geiger_read data max wait s)) = pulses_given max s * sizeof_timespec.
Proof.
  unfold geiger_read. rewrite pulses_given_printk.
  destruct (dispense _ _ _ _ _) as [d s']. cbn [fst].
  apply (bytes_fit Hok). rewrite (pulses_given_occupancy Hok).
  pose proof (occupancy_bounds Hok s) as Hocc. unfold capacity in Hocc.
  pose proof (wrap_size_t_nonneg max).
  assert (0 < sizeof_timespec) by (destruct Hok; assumption).
  assert (0 <= wrap_size_t max / sizeof_timespec) by (apply Z.div_pos; lia).
  lia.
Qed.

(** Draining through the new API one sample at a time is first in,
    first out: with room for exactly one sample per call, [n] calls hand
    out the [n] oldest live samples, oldest first (fewer if the buffer
    runs empty), and leave the others queued. *)
Theorem single_sample_reads_fifo (room : nat) (max : Z) (n : nat) (s : kstate) :
  wf s -> (1 <= room)%nat ->
  sizeof_timespec <= max < 2 * sizeof_timespec ->
  fst (reads room max n s) = firstn n (contents s) /\
  contents (snd (reads room max n s)) = skipn n (contents s).
Proof.
  intros Hwf Hroom Hmax. revert s Hwf.
  assert (Hs : 0 < sizeof_timespec) by (destruct Hok; assumption).
  assert (Hone : max / sizeof_timespec = 1).
  { symmetry. apply (Z.div_unique_pos _ _ 1 (max - sizeof_timespec)); lia. }
  assert (Hw : wrap_size_t max = max).
  { apply wrap_size_t_small. pose proof (BUFFER_SIZE_pos Hok).
    pose proof (page_holds_BUFFER_SIZE Hok). destruct Hok as (_ & Hpg & _).
    assert (sizeof_timespec <= BUFFER_SIZE * sizeof_timespec) by nia.
    lia. }
  induction n as [| n IH]; intros s Hwf.
  - split; reflexivity.
  - cbn [reads]. set (data := repeat (Timespec 0 0) room).
    pose proof (contents_read Hok data max false s Hwf) as Hc.
    pose proof (wf_read data max false s Hwf) as Hwf1.
    pose proof (geiger_read_bytes data max false s) as Hbytes.
    pose proof (geiger_read_data data max false s) as Hdata.
    assert (Hn : pulses_given max s = Z.min 1 (occupancy s)).
    { rewrite (pulses_given_occupancy Hok), Hw, Hone. reflexivity. }
    rewrite Hn in Hc, Hbytes, Hdata.
    destruct (geiger_read data max false s) as [[bytes out] s1].
    cbn [fst snd] in Hc, Hwf1, Hbytes, Hdata.
    destruct (IH s1 Hwf1) as [Hout Hrest].
    destruct (reads room max n s1) as [outs s2]. cbn [fst snd] in *.
    pose proof (occupancy_bounds Hok s) as Hocc.
    destruct (Z.leb_spec 1 (Z.min 1 (occupancy s))) as [Hne | Hlt].
    + assert (Hocc1 : 1 <= occupancy s) by lia.
      replace (Z.min 1 (occupancy s)) with 1 in * by lia.
      rewrite Hbytes, Z.mul_1_l, Z.div_same by lia.
      assert (Hfirst : out !! 0%nat = Some (load (buffer s) (buffer_tail s))).
      { rewrite Hdata. change (Z.to_nat 1) with 1%nat. change (1 =? 0) with false.
        rewrite dispense_inside; [reflexivity | lia | lia |].
        subst data. rewrite repeat_length. lia. }
      rewrite (contents_head s Hwf) by lia.
      cbn [firstn skipn]. rewrite Hout, Hrest, Hc.
      destruct out as [| x out]; [discriminate |].
      cbn in Hfirst. injection Hfirst as ->.
      split; reflexivity.
    + assert (Hocc0 : occupancy s = 0) by lia.
      replace (Z.min 1 (occupancy s)) with 0 in * by lia.
      rewrite Hbytes, Z.mul_0_l, Z.div_0_l by lia.
      rewrite (contents_empty s) in * by lia.
      rewrite Hout, Hrest, Hc. destruct n; split; reflexivity.
Qed.

End Draining.

Section Reading.

Context {target : Platform}.
Hypothesis Hok : supported target.

Lemma pulses_given_nonneg (max : Z) (s : kstate) : 0 <= pulses_given max s.
Proof.
  rewrite (pulses_given_occupancy Hok).
  pose proof (occupancy_bounds Hok s). pose proof (wrap_size_t_nonneg max).
  assert (0 < sizeof_timespec) by (destruct Hok; assumption).
  assert (0 <= wrap_size_t max / sizeof_timespec) by (apply Z.div_pos; lia).
  lia.
Qed.

(** A read that hands out anything hands out the oldest sample only:
    it returns [pulses_given] samples' worth of bytes, the first
    [pulses_given] slots of the caller's buffer all hold the sample at
    [buffer_tail], the slots behind them are untouched, and the buffer
    loses exactly one sample. *)
Theorem geiger_read_repeats_oldest (data : list timespec) (max : Z)
    (wait : bool) (s : kstate) :
  1 <= pulses_given max s ->
  pulses_given max s <= Z.of_nat (length data) ->
  fst (fst (geiger_read data max wait s)) = pulses_given max s * sizeof_timespec /\
  snd (fst (geiger_read data max wait s))
  = replicate (Z.to_nat (pulses_given max s)) (load (buffer s) (buffer_tail s))
    ++ drop (Z.to_nat (pulses_given max s)) data /\
  buffer_tail (snd (geiger_read data max wait s))
  = (buffer_tail s + 1) mod BUFFER_SIZE /\
  occupancy (snd (geiger_read data max wait s)) = occupancy s - 1.
Proof.
  intros Hn Hroom.
  pose proof (geiger_read_state data max wait s) as (Hb & Hh & _ & Ht).
  split; [apply (geiger_read_bytes Hok) |]. split; [| split].
  - rewrite geiger_read_data. apply list_eq. intros i.
    destruct (decide (i < Z.to_nat (pulses_given max s))%nat) as [Hi | Hi].
    + rewrite lookup_app_l by (rewrite length_replicate; exact Hi).
      rewrite lookup_replicate_2 by exact Hi.
      rewrite dispense_inside; [| lia | lia | lia].
      destruct (pulses_given max s =? 0); reflexivity.
    + rewrite lookup_app_r by (rewrite length_replicate; lia).
      rewrite length_replicate, lookup_drop.
      rewrite dispense_outside by lia. f_equal. lia.
  - destruct (Z.to_nat (pulses_given max s)) as [| k] eqn:Hk; [lia |].
    now rewrite <- (masked_succ_mod Hok).
  - destruct (Z.to_nat (pulses_given max s)) as [| k] eqn:Hk; [lia |].
    rewrite (masked_succ_mod Hok) in Ht.
    rewrite <- (occupancy_advance_tail Hok s).
    + unfold occupancy. now rewrite Hh, Ht.
    + rewrite (pulses_given_occupancy Hok) in Hn. lia.
Qed.

(** On an empty buffer a read returns 0 whatever room the caller
    offers, touches neither the caller's buffer nor the ring, and still
    logs the line about [max] being smaller than the storage type. *)
Theorem geiger_read_empty (data : list timespec) (max : Z) (wait : bool)
    (s : kstate) :
  occupancy s = 0 ->
  fst (geiger_read data max wait s) = (0, data) /\
  ring (snd (geiger_read data max wait s)) = ring s /\
  klog (snd (geiger_read data max wait s))
  = klog s ++ [msg_read_called; msg_max_too_small].
Proof.
  intros Hempty.
  assert (Hn : pulses_given max s = 0).
  { pose proof (pulses_given_nonneg max s) as Hge.
    rewrite (pulses_given_occupancy Hok) in *. lia. }
  unfold geiger_read. rewrite pulses_given_printk, Hn.
  change (Z.to_nat 0) with 0%nat. cbn [dispense fst snd].
  change (wrap_int (wrap_size_t (0 * sizeof_timespec))) with 0.
  change (0 =? 0) with true. cbn [klog printk].
  rewrite <- app_assoc. repeat split.
Qed.

(** The byte count [geiger_data_present] reports is a whole number of
    samples, never reaches a full page, and agrees with the old API: it
    is 0 exactly when [geiger_data_read] returns 0, and otherwise
    [geiger_data_read] returns 4. *)
Theorem present_agrees_with_data_read (wait data : Z) (s : kstate) :
  0 <= fst (geiger_data_present wait s) <= PAGE_SIZE - sizeof_timespec /\
  fst (geiger_data_present wait s) mod sizeof_timespec = 0 /\
  (fst (geiger_data_present wait s) = 0 <->
   fst (fst (geiger_data_read data s)) = 0) /\
  (0 < fst (geiger_data_present wait s) ->
   fst (fst (geiger_data_read data s)) = 4).
Proof.
  rewrite (geiger_data_present_eq Hok), (geiger_data_read_eq Hok). cbn [fst].
  pose proof (occupancy_bounds Hok s) as Hocc. unfold capacity in Hocc.
  pose proof (page_holds_BUFFER_SIZE Hok) as Hpg.
  assert (Hs : 0 < sizeof_timespec) by (destruct Hok; assumption).
  split; [nia |]. split; [apply Z.mod_mul; lia |].
  destruct (Z.leb_spec 1 (occupancy s)) as [Hne | Hlt]; cbn [fst].
  - split; [split; intros H0; [nia | discriminate] | reflexivity].
  - replace (occupancy s) with 0 by lia.
    split; [split; reflexivity | lia].
Qed.

(** A read returns whole samples only, and never more bytes than
    [geiger_data_present] reports on the same state. *)
Theorem geiger_read_at_most_present (data : list timespec) (max : Z)
    (wait : bool) (w : Z) (s : kstate) :
  fst (fst (geiger_read data max wait s)) mod sizeof_timespec = 0 /\
  0 <= fst (fst (geiger_read data max wait s))
    <= fst (geiger_data_present w s).
Proof.
  rewrite (geiger_read_bytes Hok), (geiger_data_present_eq Hok). cbn [fst].
  assert (Hs : 0 < sizeof_timespec) by (destruct Hok; assumption).
  pose proof (pulses_given_nonneg max s) as Hge.
  assert (Hle : pulses_given max s <= occupancy s).
  { rewrite (pulses_given_occupancy Hok). lia. }
  split; [apply Z.mod_mul; lia | nia].
Qed.

End Reading.

(** * Further properties of start-up and shut-down *)

(** Start-up succeeds exactly when every kernel service it calls does;
    it then holds the page, the GPIO line, the interrupt and the hwrng
    registration and has recorded the interrupt number [gpio_to_irq]
    gave, and a following [krad_exit] gives all four back. *)
Theorem krad_init_success (k : Lifecycle.kernel) (h : Lifecycle.held) :
  (Lifecycle.failed (Lifecycle.krad_init k h) = false <->
   Lifecycle.get_free_page k <> 0 /\ Lifecycle.gpio_request_one k = 0 /\
   0 <= Lifecycle.gpio_to_irq k /\ Lifecycle.request_irq k = 0 /\
   Lifecycle.hwrng_register k = 0) /\
  (Lifecycle.failed (Lifecycle.krad_init k h) = false ->
   snd (fst (Lifecycle.krad_init k h))
   = Lifecycle.Held true true true true (Lifecycle.gpio_to_irq k) /\
   Lifecycle.all_released
     (fst (Lifecycle.krad_exit (snd (fst (Lifecycle.krad_init k h))))) = true).
Proof.
  unfold Lifecycle.failed, Lifecycle.krad_init.
  destruct (Z.eqb_spec (Lifecycle.get_free_page k) 0) as [Hp | Hp].
  { cbn. split; [split; [discriminate | tauto] | discriminate]. }
  destruct (Z.eqb_spec (Lifecycle.gpio_request_one k) 0) as [Hg | Hg]; cbn [negb].
  2:{ cbn [Lifecycle.fail1 fst snd].
      destruct (Z.eqb_spec (Lifecycle.gpio_request_one k) 0); [contradiction |].
      cbn. split; [split; [discriminate | tauto] | discriminate]. }
  destruct (Z.ltb_spec (Lifecycle.gpio_to_irq k) 0) as [Hi | Hi].
  { cbn [Lifecycle.fail2 Lifecycle.fail1 fst snd].
    destruct (Z.eqb_spec (Lifecycle.gpio_to_irq k) 0); [lia |].
    cbn. split; [split; [discriminate | lia] | discriminate]. }
  destruct (Z.eqb_spec (Lifecycle.request_irq k) 0) as [Hr | Hr]; cbn [negb].
  2:{ cbn [Lifecycle.fail2 Lifecycle.fail1 fst snd].
      destruct (Z.eqb_spec (Lifecycle.request_irq k) 0); [contradiction |].
      cbn. split; [split; [discriminate | tauto] | discriminate]. }
  destruct (Z.eqb_spec (Lifecycle.hwrng_register k) 0) as [Hw | Hw]; cbn [negb].
  2:{ cbn [Lifecycle.fail3 Lifecycle.fail2 Lifecycle.fail1 fst snd].
      destruct (Z.eqb_spec (Lifecycle.hwrng_register k) 0); [contradiction |].
      cbn. split; [split; [discriminate | tauto] | discriminate]. }
  cbn. split; [split; [tauto | reflexivity] | intros _; split; reflexivity].
Qed.

(** A failed start-up from the unloaded state never leaves the GPIO
    line, the interrupt or the hwrng registration held, returns the
    answer of the step that failed ([ENOMEM] for the page), and logs one
    line. *)
Theorem krad_init_failure_releases_lines (k : Lifecycle.kernel) :
  Lifecycle.failed (Lifecycle.krad_init k Lifecycle.unloaded) = true ->
  Lifecycle.gpio (snd (fst (Lifecycle.krad_init k Lifecycle.unloaded))) = false /\
  Lifecycle.irq (snd (fst (Lifecycle.krad_init k Lifecycle.unloaded))) = false /\
  Lifecycle.hwrng (snd (fst (Lifecycle.krad_init k Lifecycle.unloaded))) = false /\
  In (fst (fst (Lifecycle.krad_init k Lifecycle.unloaded)))
     [Lifecycle.ENOMEM; Lifecycle.gpio_request_one k; Lifecycle.gpio_to_irq k;
      Lifecycle.request_irq k; Lifecycle.hwrng_register k] /\
  length (snd (Lifecycle.krad_init k Lifecycle.unloaded)) = 1%nat.
Proof.
  unfold Lifecycle.failed, Lifecycle.krad_init.
  destruct (Lifecycle.get_free_page k =? 0); [intros _; cbn; tauto |].
  destruct (Lifecycle.gpio_request_one k =? 0); cbn [negb];
    [| intros _; cbn; tauto].
  destruct (Lifecycle.gpio_to_irq k <? 0); [intros _; cbn; tauto |].
  destruct (Lifecycle.request_irq k =? 0); cbn [negb];
    [| intros _; cbn; tauto].
  destruct (Lifecycle.hwrng_register k =? 0); cbn [negb];
    [| intros _; cbn; tauto].
  cbn. discriminate.
Qed.

(** ** The further properties at concrete inputs *)

Lemma ring_refines_queue_witness :
  supported linux_x86_64 /\ wf (target := linux_x86_64) (three_pulses linux_x86_64) /\
  contents (target := linux_x86_64)
    (run (target := linux_x86_64)
       [OpRead caller_buffer 32 false; OpIsr 42 sample_D; OpDataRead 0]
       (three_pulses linux_x86_64))
  = queue_run (target := linux_x86_64) 42
      [OpRead caller_buffer 32 false; OpIsr 42 sample_D; OpDataRead 0]
      [sample_A; sample_B; sample_C].
Proof.
  assert (Hok : supported linux_x86_64) by (vm_compute; repeat split).
  assert (Hwf : wf (target := linux_x86_64) (three_pulses linux_x86_64)).
  { unfold wf. vm_compute. repeat split; discriminate. }
  split; [exact Hok |]. split; [exact Hwf |].
  exact (ring_refines_queue (target := linux_x86_64) Hok
           [OpRead caller_buffer 32 false; OpIsr 42 sample_D; OpDataRead 0]
           (three_pulses linux_x86_64) Hwf).
Defined.


Lemma data_reads_fifo_witness :
  supported linux_x86_64 /\ wf (target := linux_x86_64) (three_pulses linux_x86_64) /\
  fst (data_reads (target := linux_x86_64) 2 (three_pulses linux_x86_64))
  = [111; 222] /\
  contents (target := linux_x86_64)
    (snd (data_reads (target := linux_x86_64) 2 (three_pulses linux_x86_64)))
  = [sample_C].
Proof.
  assert (Hok : supported linux_x86_64) by (vm_compute; repeat split).
  assert (Hwf : wf (target := linux_x86_64) (three_pulses linux_x86_64)).
  { unfold wf. vm_compute. repeat split; discriminate. }
  split; [exact Hok |]. split; [exact Hwf |].
  exact (data_reads_fifo (target := linux_x86_64) Hok 2
           (three_pulses linux_x86_64) Hwf).
Defined.

Lemma push_data_read_round_trip_witness :
  supported linux_x86_64 /\ wf (target := linux_x86_64) (fresh linux_x86_64) /\
  fst (data_reads (target := linux_x86_64) 255
         (pushes (target := linux_x86_64) (burst 255) (fresh linux_x86_64)))
  = map nsec_word (burst 255).
Proof.
  assert (Hok : supported linux_x86_64) by (vm_compute; repeat split).
  assert (Hwf : wf (target := linux_x86_64) (fresh linux_x86_64)).
  { unfold wf. vm_compute. repeat split; discriminate. }
  split; [exact Hok |]. split; [exact Hwf |].
  refine (proj1 (push_data_read_round_trip (target := linux_x86_64) Hok
                   (burst 255) (fresh linux_x86_64) Hwf _ _)).
  - vm_compute. reflexivity.
  - vm_compute. discriminate.
Defined.

Lemma single_sample_reads_fifo_witness :
  supported linux_x86_64 /\ wf (target := linux_x86_64) (three_pulses linux_x86_64) /\
  fst (reads (target := linux_x86_64) 1 16 3 (three_pulses linux_x86_64))
  = [sample_A; sample_B; sample_C] /\
  contents (target := linux_x86_64)
    (snd (reads (target := linux_x86_64) 1 16 3 (three_pulses linux_x86_64)))
  = [].
Proof.
  assert (Hok : supported linux_x86_64) by (vm_compute; repeat split).
  assert (Hwf : wf (target := linux_x86_64) (three_pulses linux_x86_64)).
  { unfold wf. vm_compute. repeat split; discriminate. }
  split; [exact Hok |]. split; [exact Hwf |].
  refine (single_sample_reads_fifo (target := linux_x86_64) Hok 1 16 3
            (three_pulses linux_x86_64) Hwf _ _).
  - lia.
  - cbn. lia.
Defined.

Lemma geiger_read_repeats_oldest_witness :
  supported linux_x86_64 /\
  1 <= pulses_given (target := linux_x86_64) 48 (three_pulses linux_x86_64) /\
  snd (fst (geiger_read (target := linux_x86_64) caller_buffer 48 false
              (three_pulses linux_x86_64)))
  = [sample_A; sample_A; sample_A; Timespec 0 0] /\
  occupancy (target := linux_x86_64)
    (snd (geiger_read (target := linux_x86_64) caller_buffer 48 false
            (three_pulses linux_x86_64))) = 2.
Proof.
  assert (Hok : supported linux_x86_64) by (vm_compute; repeat split).
  assert (Hn : 1 <= pulses_given (target := linux_x86_64) 48 (three_pulses linux_x86_64))
    by (vm_compute; discriminate).
  assert (Hroom : pulses_given (target := linux_x86_64) 48 (three_pulses linux_x86_64)
                  <= Z.of_nat (length caller_buffer))
    by (vm_compute; discriminate).
  destruct (geiger_read_repeats_oldest (target := linux_x86_64) Hok caller_buffer 48
              false (three_pulses linux_x86_64) Hn Hroom) as (_ & Hdata & _ & Hocc).
  split; [exact Hok |]. split; [exact Hn |]. split; [exact Hdata | exact Hocc].
Defined.

Lemma geiger_read_empty_witness :
  supported linux_x86_64 /\
  occupancy (target := linux_x86_64) (fresh linux_x86_64) = 0 /\
  fst (geiger_read (target := linux_x86_64) caller_buffer 64 true (fresh linux_x86_64))
  = (0, caller_buffer) /\
  klog (snd (geiger_read (target := linux_x86_64) caller_buffer 64 true
               (fresh linux_x86_64)))
  = [msg_read_called; msg_max_too_small].
Proof.
  assert (Hok : supported linux_x86_64) by (vm_compute; repeat split).
  assert (H0 : occupancy (target := linux_x86_64) (fresh linux_x86_64) = 0)
    by (vm_compute; reflexivity).
  destruct (geiger_read_empty (target := linux_x86_64) Hok caller_buffer 64 true
              (fresh linux_x86_64) H0) as (Hret & _ & Hlog).
  split; [exact Hok |]. split; [exact H0 |]. split; [exact Hret | exact Hlog].
Defined.

Lemma present_agrees_with_data_read_witness :
  supported linux_x86_64 /\
  fst (geiger_data_present (target := linux_x86_64) 0 (three_pulses linux_x86_64))
    mod 16 = 0 /\
  fst (fst (geiger_data_read (target := linux_x86_64) 0 (three_pulses linux_x86_64)))
  = 4.
Proof.
  assert (Hok : supported linux_x86_64) by (vm_compute; repeat split).
  destruct (present_agrees_with_data_read (target := linux_x86_64) Hok 0 0
              (three_pulses linux_x86_64)) as (_ & Hmod & _ & Hpos).
  split; [exact Hok |]. split; [exact Hmod |].
  apply Hpos. vm_compute. reflexivity.
Defined.

Lemma geiger_read_at_most_present_witness :
  supported linux_x86_64 /\
  0 <= fst (fst (geiger_read (target := linux_x86_64) caller_buffer 1000 false
                   (three_pulses linux_x86_64)))
    <= fst (geiger_data_present (target := linux_x86_64) 0 (three_pulses linux_x86_64)).
Proof.
  assert (Hok : supported linux_x86_64) by (vm_compute; repeat split).
  split; [exact Hok |].
  exact (proj2 (geiger_read_at_most_present (target := linux_x86_64) Hok
                  caller_buffer 1000 false 0 (three_pulses linux_x86_64))).
Defined.

Lemma krad_init_success_witness :
  Lifecycle.failed
    (Lifecycle.krad_init (Lifecycle.Kernel 4096 0 17 0 0) Lifecycle.unloaded) = false /\
  snd (fst (Lifecycle.krad_init (Lifecycle.Kernel 4096 0 17 0 0) Lifecycle.unloaded))
  = Lifecycle.Held true true true true 17.
Proof.
  assert (Hgood : Lifecycle.failed
            (Lifecycle.krad_init (Lifecycle.Kernel 4096 0 17 0 0) Lifecycle.unloaded)
          = false) by reflexivity.
  split; [exact Hgood |].
  exact (proj1 (proj2 (krad_init_success (Lifecycle.Kernel 4096 0 17 0 0)
                         Lifecycle.unloaded) Hgood)).
Defined.

Lemma krad_init_failure_releases_lines_witness :
  Lifecycle.failed
    (Lifecycle.krad_init (Lifecycle.Kernel 4096 0 17 0 (-19)) Lifecycle.unloaded) = true /\
  Lifecycle.gpio
    (snd (fst (Lifecycle.krad_init (Lifecycle.Kernel 4096 0 17 0 (-19))
                 Lifecycle.unloaded))) = false /\
  Lifecycle.irq
    (snd (fst (Lifecycle.krad_init (Lifecycle.Kernel 4096 0 17 0 (-19))
                 Lifecycle.unloaded))) = false.
Proof.
  assert (Hbad : Lifecycle.failed
            (Lifecycle.krad_init (Lifecycle.Kernel 4096 0 17 0 (-19)) Lifecycle.unloaded)
          = true) by reflexivity.
  destruct (krad_init_failure_releases_lines (Lifecycle.Kernel 4096 0 17 0 (-19)) Hbad)
    as (Hg & Hi & _).
  split; [exact Hbad |]. split; [exact Hg | exact Hi].
Defined.

(** * The earlier revision with the hand-written ring *)

Section PulsesFacts.

Import Pulses.

Context {target : Platform}.

Lemma pulses_size_eq (s : pstate) :
  0 <= pulses_head s < 50 -> 0 <= pulses_tail s < 50 ->
  pulses_size s
  = if pulses_head s =? pulses_tail s then 0
    else (pulses_tail s - pulses_head s) mod 50 + 1.
Proof.
  intros Hh Ht. unfold pulses_size, PULSE_BUFFER_SIZE.
  destruct (Z.eqb_spec (pulses_head s) (pulses_tail s)) as [Heq | Hne];
    [reflexivity |].
  destruct (Z.ltb_spec (pulses_head s) (pulses_tail s)) as [Hlt | Hge].
  - rewrite !wrap_int_small by (try rewrite wrap_int_small; lia).
    rewrite Z.mod_small by lia. reflexivity.
  - rewrite (wrap_int_small (50 - pulses_head s)) by lia.
    rewrite (wrap_int_small (50 - pulses_head s + pulses_tail s)) by lia.
    rewrite wrap_int_small by lia.
    rewrite <- (Z_mod_plus_full (pulses_tail s - pulses_head s) 1 50).
    rewrite Z.mod_small by lia. lia.
Qed.

Lemma pulses_pop_eq (s : pstate) :
  0 <= pulses_head s < 50 ->
  pulses_pop s
  = (load (pulses s) (pulses_head s),
     set_pulses_head ((pulses_head s + 1) mod 50) s).
Proof.
  intros Hh. unfold pulses_pop, PULSE_BUFFER_SIZE. cbn [set_pulses_head pulses_head pulses].
  rewrite wrap_int_small by lia.
  rewrite Z.rem_mod_nonneg by lia. reflexivity.
Qed.

Lemma pulses_push_eq (t : timespec) (s : pstate) :
  0 <= pulses_tail s < 50 ->
  pulses_push t s
  = set_pulses (store (pulses s) ((pulses_tail s + 1) mod 50) t)
      (set_pulses_tail ((pulses_tail s + 1) mod 50) s).
Proof.
  intros Ht. unfold pulses_push, PULSE_BUFFER_SIZE.
  cbn [set_pulses_tail pulses_tail pulses].
  rewrite wrap_int_small by lia.
  rewrite Z.rem_mod_nonneg by lia. reflexivity.
Qed.

Lemma pulses_size_facts (s : pstate) :
  in_range s ->
  (pulses_size s = 0 <-> pulses_head s = pulses_tail s) /\
  (pulses_head s <> pulses_tail s ->
   pulses_size s = (pulses_tail s - pulses_head s) mod 50 + 1) /\
  pulses_size s <> 1 /\
  0 <= pulses_size s <= 50.
Proof.
  unfold in_range, PULSE_BUFFER_SIZE. intros (Hh & Ht & _).
  rewrite (pulses_size_eq s Hh Ht).
  pose proof (Z.mod_pos_bound (pulses_tail s - pulses_head s) 50) as Hm.
  assert (Hd : pulses_head s <> pulses_tail s ->
               (pulses_tail s - pulses_head s) mod 50 <> 0).
  { intros Hne H0. apply Z.mod_divide in H0; [| lia].
    destruct H0 as [q Hq]. lia. }
  destruct (Z.eqb_spec (pulses_head s) (pulses_tail s)) as [Heq | Hne].
  - repeat split; (contradiction || lia || auto).
  - specialize (Hd Hne). repeat split; (contradiction || lia || auto).
Qed.

(** [pulses_size] is 0 exactly when the cursors coincide and otherwise
    one more than the distance from head to tail: it never reports a
    single pulse and never more than 50. *)
Theorem pulses_size_values (s : pstate) :
  in_range s ->
  (pulses_size s = 0 <-> pulses_head s = pulses_tail s) /\
  (pulses_head s <> pulses_tail s ->
   pulses_size s = (pulses_tail s - pulses_head s) mod 50 + 1) /\
  pulses_size s <> 1 /\
  0 <= pulses_size s <= 50.
Proof. exact (pulses_size_facts s). Qed.

Lemma pop_loop_frame (n : nat) (p : Z) (data : list timespec) (s : pstate) :
  0 <= pulses_head s < 50 ->
  pulses_head (snd (pop_loop n p data s)) = (pulses_head s + Z.of_nat n) mod 50 /\
  pulses_tail (snd (pop_loop n p data s)) = pulses_tail s /\
  pulses (snd (pop_loop n p data s)) = pulses s /\
  geiger_irq (snd (pop_loop n p data s)) = geiger_irq s /\
  plog (snd (pop_loop n p data s)) = plog s.
Proof.
  revert p data s. induction n as [| n IH]; intros p data s Hh.
  - cbn [pop_loop snd]. rewrite Z.add_0_r, Z.mod_small by lia. auto.
  - cbn [pop_loop]. rewrite (pulses_pop_eq s Hh).
    pose proof (Z.mod_pos_bound (pulses_head s + 1) 50).
    destruct (IH (p + 1) (store data p (load (pulses s) (pulses_head s)))
                (set_pulses_head ((pulses_head s + 1) mod 50) s))
      as (H1 & H2 & H3 & H4 & H5); [cbn; lia |].
    rewrite H1, H2, H3, H4, H5. cbn [set_pulses_head pulses_head pulses_tail pulses geiger_irq plog].
    repeat split. rewrite Zplus_mod_idemp_l. f_equal. lia.
Qed.

Lemma in_range_pstep (s : pstate) (o : pop) : in_range s -> in_range (pstep s o).
Proof.
  unfold in_range, PULSE_BUFFER_SIZE. intros (Hh & Ht & Hlen).
  destruct o as [irq now | wait | data | data max wait]; cbn [pstep].
  - unfold geiger_isr. destruct (irq =? geiger_irq s); [| cbn; auto].
    cbn [snd]. destruct (pulses_size s <? PULSE_BUFFER_SIZE); [| auto].
    rewrite (pulses_push_eq now s Ht). cbn. unfold store. rewrite length_insert.
    pose proof (Z.mod_pos_bound (pulses_tail s + 1) 50). lia.
  - cbn. auto.
  - unfold geiger_data_read. destruct (0 <? pulses_size s); [| cbn; auto].
    rewrite (pulses_pop_eq s Hh). cbn.
    pose proof (Z.mod_pos_bound (pulses_head s + 1) 50). lia.
  - unfold geiger_read. destruct (0 <? pulses_size s); [| cbn; auto].
    destruct (sizeof_timespec <? wrap_size_t max); [| cbn; auto].
    set (n := Z.to_nat _).
    pose proof (pop_loop_frame n 0 data s Hh) as (H1 & H2 & H3 & _).
    destruct (pop_loop n 0 data s) as [d s']. cbn [snd] in *.
    rewrite H1, H2, H3.
    pose proof (Z.mod_pos_bound (pulses_head s + Z.of_nat n) 50). lia.
Qed.

(** From the statically initialised globals, every interleaving of
    calls keeps both cursors inside the 50-slot array and the array at
    its size. *)
Theorem pulses_cursors_in_range (irq : Z) (ops : list pop) :
  in_range (prun ops (loaded irq)).
Proof.
  assert (Hgen : forall s, in_range s -> in_range (prun ops s)).
  { induction ops as [| o ops IH]; intros s Hs; cbn; [exact Hs |].
    apply IH. now apply in_range_pstep. }
  apply Hgen. unfold in_range, PULSE_BUFFER_SIZE. cbn. lia.
Qed.

(** A pulse recorded into an empty ring is reported as two, and the
    read that follows does not hand it out: the word comes from the slot
    at the old head, the ring then reports empty, and the recorded
    sample stays behind in the slot at [pulses_tail]. *)
Theorem pulses_first_read_is_stale (t : timespec) (data : Z) (s : pstate) :
  in_range s -> pulses_head s = pulses_tail s ->
  pulses_size (snd (geiger_isr (geiger_irq s) t s)) = 2 /\
  fst (geiger_data_read data (snd (geiger_isr (geiger_irq s) t s)))
  = (4, nsec_word (load (pulses s) (pulses_head s))) /\
  pulses_size (snd (geiger_data_read data (snd (geiger_isr (geiger_irq s) t s)))) = 0 /\
  load (pulses (snd (geiger_data_read data (snd (geiger_isr (geiger_irq s) t s)))))
       (pulses_tail (snd (geiger_data_read data (snd (geiger_isr (geiger_irq s) t s)))))
  = t.
Proof.
  unfold in_range, PULSE_BUFFER_SIZE. intros (Hh & Ht & Hlen) Heq.
  unfold geiger_isr. rewrite Z.eqb_refl. cbn [snd].
  rewrite (pulses_size_eq s Hh Ht), Heq, Z.eqb_refl.
  change (0 <? PULSE_BUFFER_SIZE) with true. cbv iota.
  rewrite (pulses_push_eq t s Ht).
  set (t' := (pulses_tail s + 1) mod 50).
  assert (Ht' : 0 <= t' < 50) by (apply Z.mod_pos_bound; lia).
  assert (Hne : t' <> pulses_tail s).
  { subst t'. destruct (Z.eq_dec (pulses_tail s) 49) as [-> | H49].
    - vm_compute. discriminate.
    - rewrite Z.mod_small by lia. lia. }
  set (s1 := set_pulses _ _).
  assert (Hs1 : pulses_size s1 = 2).
  { rewrite pulses_size_eq by (cbn; lia). cbn [s1 set_pulses set_pulses_tail pulses_head pulses_tail].
    rewrite Heq. destruct (Z.eqb_spec (pulses_tail s) t') as [Hc | _]; [congruence |].
    subst t'. rewrite Zminus_mod_idemp_l.
    replace (pulses_tail s + 1 - pulses_tail s) with 1 by lia. reflexivity. }
  split; [exact Hs1 |].
  unfold geiger_data_read. rewrite Hs1. change (0 <? 2) with true. cbv iota.
  rewrite (pulses_pop_eq s1) by (cbn; lia).
  cbn [fst snd s1 set_pulses set_pulses_tail set_pulses_head pulses_head pulses_tail pulses].
  rewrite Heq. fold t'.
  repeat split.
  - unfold nsec_word. do 3 f_equal. unfold load, store.
    apply list_lookup_total_insert_ne. lia.
  - rewrite pulses_size_eq by (cbn; lia). cbn. fold t'. now rewrite Z.eqb_refl.
  - unfold load, store. apply list_lookup_total_insert_eq. lia.
Qed.

End PulsesFacts.

Section PulsesReading.

Import Pulses.

Context {target : Platform}.
Hypothesis Hsize : 0 < sizeof_timespec.
Hypothesis Hbytes : 50 * sizeof_timespec < 2 ^ 31.

Lemma pulses_read_eq (data : list timespec) (max : Z) (wait : bool) (s : pstate) :
  in_range s -> 0 < pulses_size s -> sizeof_timespec < max < 2 ^ 31 ->
  geiger_read data max wait s
  = (Z.min max (pulses_size s * sizeof_timespec),
     fst (pop_loop (Z.to_nat (Z.min max (pulses_size s * sizeof_timespec)
                              / sizeof_timespec)) 0 data s),
     snd (pop_loop (Z.to_nat (Z.min max (pulses_size s * sizeof_timespec)
                              / sizeof_timespec)) 0 data s)).
Proof.
  intros Hin Hk Hmax.
  destruct (pulses_size_facts s Hin) as (_ & _ & _ & Hrange).
  unfold geiger_read.
  destruct (Z.ltb_spec 0 (pulses_size s)) as [_ | Hc]; [| lia].
  rewrite (wrap_size_t_small max) by lia.
  destruct (Z.ltb_spec sizeof_timespec max) as [_ | Hc]; [| lia].
  rewrite (wrap_int_small max) by lia.
  rewrite (wrap_size_t_small (pulses_size s)) by lia.
  assert (Hprod : 0 <= pulses_size s * sizeof_timespec < 2 ^ 31) by nia.
  rewrite (wrap_size_t_small (pulses_size s * sizeof_timespec)) by lia.
  rewrite (wrap_int_small (pulses_size s * sizeof_timespec)) by lia.
  set (m := Z.min max (pulses_size s * sizeof_timespec)).
  assert (Hm : 0 <= m < 2 ^ 31) by lia.
  rewrite (wrap_size_t_small m) by lia.
  assert (Hq : 0 <= m / sizeof_timespec <= m).
  { split; [apply Z.div_pos; lia |]. apply Z.div_le_upper_bound; nia. }
  rewrite (wrap_int_small (m / sizeof_timespec)) by lia.
  destruct (pop_loop _ _ _ _) as [d s']. reflexivity.
Qed.

(** A read that has room for everything the ring reports returns that
    many bytes and leaves the head one slot past the tail, where the
    ring reports 50 pulses: the next interrupt, whatever its line, then
    records nothing. *)
Theorem pulses_full_read_wedges (data : list timespec) (max : Z) (wait : bool)
    (s : pstate) :
  in_range s -> 0 < pulses_size s -> sizeof_timespec < max < 2 ^ 31 ->
  pulses_size s * sizeof_timespec <= max ->
  fst (fst (geiger_read data max wait s)) = pulses_size s * sizeof_timespec /\
  pulses_head (snd (geiger_read data max wait s)) = (pulses_tail s + 1) mod 50 /\
  pulses_size (snd (geiger_read data max wait s)) = 50 /\
  (forall (irq : Z) (now : timespec),
     snd (geiger_isr irq now (snd (geiger_read data max wait s)))
     = snd (geiger_read data max wait s)).
Proof.
  intros Hin Hk Hmax Hroom.
  rewrite (pulses_read_eq data max wait s Hin Hk Hmax).
  destruct (pulses_size_facts s Hin) as (Hzero & Hdist & _ & Hrange).
  pose proof Hin as (Hh & Ht & _). unfold PULSE_BUFFER_SIZE in Hh, Ht.
  assert (Hne : pulses_head s <> pulses_tail s).
  { intros Heq. apply Hzero in Heq. lia. }
  specialize (Hdist Hne).
  rewrite Z.min_r by exact Hroom. rewrite Z.div_mul by lia.
  pose proof (pop_loop_frame (Z.to_nat (pulses_size s)) 0 data s Hh)
    as (H1 & H2 & _).
  rewrite Z2Nat.id in H1 by lia.
  destruct (pop_loop (Z.to_nat (pulses_size s)) 0 data s) as [d s'].
  cbn [fst snd] in *.
  assert (Hhead : pulses_head s' = (pulses_tail s + 1) mod 50).
  { rewrite H1, Hdist.
    replace (pulses_head s + ((pulses_tail s - pulses_head s) mod 50 + 1))
      with ((pulses_tail s - pulses_head s) mod 50 + (pulses_head s + 1)) by lia.
    rewrite Zplus_mod_idemp_l. f_equal. lia. }
  assert (Hfull : pulses_size s' = 50).
  { pose proof (Z.mod_pos_bound (pulses_tail s + 1) 50).
    rewrite pulses_size_eq by lia.
    rewrite H2, Hhead.
    assert (Hoff : (pulses_tail s - (pulses_tail s + 1) mod 50) mod 50 = 49).
    { rewrite Zminus_mod_idemp_r.
      replace (pulses_tail s - (pulses_tail s + 1)) with (-1) by lia.
      reflexivity. }
    destruct (Z.eqb_spec ((pulses_tail s + 1) mod 50) (pulses_tail s)) as [Hc | _].
    - rewrite Hc, Z.sub_diag in Hoff. discriminate.
    - rewrite Hoff. reflexivity. }
  repeat split; try assumption.
  intros irq now. unfold geiger_isr.
  destruct (irq =? geiger_irq s'); [| reflexivity].
  cbn [snd]. now rewrite Hfull.
Qed.

(** The byte count of a read on a non-empty ring: a request for no more
    than one sample is refused with the too-small line, and a larger one
    returns [max] itself whenever the ring reports more, which need not
    be a whole number of samples, while popping only the whole samples
    that fit. *)
Theorem pulses_read_byte_count (data : list timespec) (max : Z) (wait : bool)
    (s : pstate) :
  in_range s -> 0 < pulses_size s -> 0 <= max < 2 ^ 31 ->
  (max <= sizeof_timespec ->
   geiger_read data max wait s = (0, data, printk msg_max_too_small s)) /\
  (sizeof_timespec < max ->
   fst (fst (geiger_read data max wait s))
   = Z.min max (pulses_size s * sizeof_timespec) /\
   pulses_head (snd (geiger_read data max wait s))
   = (pulses_head s + Z.min max (pulses_size s * sizeof_timespec) / sizeof_timespec)
     mod 50 /\
   pulses_tail (snd (geiger_read data max wait s)) = pulses_tail s).
Proof.
  intros Hin Hk Hmax. split.
  - intros Hsmall. unfold geiger_read.
    destruct (Z.ltb_spec 0 (pulses_size s)) as [_ | Hc]; [| lia].
    rewrite (wrap_size_t_small max) by lia.
    destruct (Z.ltb_spec sizeof_timespec max) as [Hc | _]; [lia | reflexivity].
  - intros Hbig.
    rewrite (pulses_read_eq data max wait s Hin Hk) by lia.
    destruct (pulses_size_facts s Hin) as (_ & _ & _ & Hrange).
    pose proof Hin as (Hh & _). unfold PULSE_BUFFER_SIZE in Hh.
    set (m := Z.min max (pulses_size s * sizeof_timespec)).
    assert (Hq : 0 <= m / sizeof_timespec) by (apply Z.div_pos; nia).
    pose proof (pop_loop_frame (Z.to_nat (m / sizeof_timespec)) 0 data s Hh)
      as (H1 & H2 & _).
    rewrite Z2Nat.id in H1 by lia.
    cbn [fst snd]. auto.
Qed.

End PulsesReading.

(** ** The earlier revision at concrete inputs *)

Lemma pulses_size_values_witness :
  Pulses.in_range two_pulses_50 /\
  Pulses.pulses_size two_pulses_50 = 3 /\
  Pulses.pulses_size two_pulses_50 <> 1.
Proof.
  assert (Hin : Pulses.in_range two_pulses_50).
  { unfold Pulses.in_range. vm_compute. repeat split; discriminate. }
  destruct (pulses_size_values two_pulses_50 Hin) as (_ & Hdist & Hone & _).
  split; [exact Hin |]. split; [| exact Hone].
  apply Hdist. vm_compute. discriminate.
Defined.

Lemma pulses_first_read_is_stale_witness :
  Pulses.in_range (Pulses.loaded 42) /\
  Pulses.pulses_head (Pulses.loaded 42) = Pulses.pulses_tail (Pulses.loaded 42) /\
  Pulses.pulses_size (snd (Pulses.geiger_isr 42 sample_A (Pulses.loaded 42))) = 2 /\
  fst (Pulses.geiger_data_read 7
         (snd (Pulses.geiger_isr 42 sample_A (Pulses.loaded 42))))
  = (4, 0).
Proof.
  assert (Hin : Pulses.in_range (Pulses.loaded 42)).
  { unfold Pulses.in_range. vm_compute. repeat split; discriminate. }
  assert (Heq : Pulses.pulses_head (Pulses.loaded 42)
                = Pulses.pulses_tail (Pulses.loaded 42)) by reflexivity.
  destruct (pulses_first_read_is_stale sample_A 7 (Pulses.loaded 42) Hin Heq)
    as (Hsz & Hrd & _).
  split; [exact Hin |]. split; [exact Heq |]. split; [exact Hsz | exact Hrd].
Defined.

Lemma pulses_full_read_wedges_witness :
  0 < @sizeof_timespec linux_x86_64 /\
  Pulses.in_range two_pulses_50 /\
  fst (fst (Pulses.geiger_read (target := linux_x86_64) caller_buffer 1000 false
              two_pulses_50)) = 48 /\
  Pulses.pulses_size
    (snd (Pulses.geiger_read (target := linux_x86_64) caller_buffer 1000 false
            two_pulses_50)) = 50 /\
  snd (Pulses.geiger_isr 42 sample_C
         (snd (Pulses.geiger_read (target := linux_x86_64) caller_buffer 1000 false
                 two_pulses_50)))
  = snd (Pulses.geiger_read (target := linux_x86_64) caller_buffer 1000 false
           two_pulses_50).
Proof.
  assert (Hs : 0 < @sizeof_timespec linux_x86_64) by (cbn; lia).
  assert (Hb : 50 * @sizeof_timespec linux_x86_64 < 2 ^ 31) by (cbn; lia).
  assert (Hin : Pulses.in_range two_pulses_50).
  { unfold Pulses.in_range. vm_compute. repeat split; discriminate. }
  assert (Hk : 0 < Pulses.pulses_size two_pulses_50) by (vm_compute; reflexivity).
  assert (Hmax : @sizeof_timespec linux_x86_64 < 1000 < 2 ^ 31) by (cbn; lia).
  assert (Hroom : Pulses.pulses_size two_pulses_50 * @sizeof_timespec linux_x86_64
                  <= 1000) by (vm_compute; discriminate).
  destruct (pulses_full_read_wedges (target := linux_x86_64) Hs Hb caller_buffer
              1000 false two_pulses_50 Hin Hk Hmax Hroom)
    as (Hret & _ & Hfull & Hdrop).
  split; [exact Hs |]. split; [exact Hin |]. split; [exact Hret |].
  split; [exact Hfull | exact (Hdrop 42 sample_C)].
Defined.

Lemma pulses_read_byte_count_witness :
  0 < @sizeof_timespec linux_x86_64 /\
  Pulses.in_range two_pulses_50 /\
  fst (fst (Pulses.geiger_read (target := linux_x86_64) caller_buffer 40 false
              two_pulses_50)) = 40 /\
  Pulses.geiger_read (target := linux_x86_64) caller_buffer 16 false two_pulses_50
  = (0, caller_buffer, Pulses.printk msg_max_too_small two_pulses_50).
Proof.
  assert (Hs : 0 < @sizeof_timespec linux_x86_64) by (cbn; lia).
  assert (Hb : 50 * @sizeof_timespec linux_x86_64 < 2 ^ 31) by (cbn; lia).
  assert (Hin : Pulses.in_range two_pulses_50).
  { unfold Pulses.in_range. vm_compute. repeat split; discriminate. }
  assert (Hk : 0 < Pulses.pulses_size two_pulses_50) by (vm_compute; reflexivity).
  destruct (pulses_read_byte_count (target := linux_x86_64) Hs Hb caller_buffer
              40 false two_pulses_50 Hin Hk ltac:(lia)) as [_ Hbig].
  destruct (pulses_read_byte_count (target := linux_x86_64) Hs Hb caller_buffer
              16 false two_pulses_50 Hin Hk ltac:(lia)) as [Hsmall _].
  split; [exact Hs |]. split; [exact Hin |]. split.
  - exact (proj1 (Hbig ltac:(cbn; lia))).
  - exact (Hsmall ltac:(cbn; lia)).
Defined.
